(** * val_coach: the VALORANT log analyser (analyze_valorant.py)

    A shallow embedding of the event sampler, the JSON extraction and
    repair tools, the recovery ladder and the retrying model caller of
    [analyze_valorant.py], with the properties of the design document
    stated and settled against it.

    Conventions of the embedding:
    - Python [str] is [string]; a character is its byte.  Python's
      whitespace test ([str.strip], the regex class [\s]) is modelled on
      the ASCII range.
    - Python [int] is [Z]; list slices follow Python's index adjustment.
    - A value produced by [json.loads] is a [json]; Python's [None] is
      [JNull], so a function that returns None on failure returns [JNull].
    - [json.loads] itself belongs to the Python library, not to the
      program: the tools take the decoder as a parameter [loads], and
      [json_loads] is a reference decoder used to run them on concrete
      texts. *)

From Stdlib Require Import ZArith Ascii String.
From stdpp Require Import base decidable list sets gmap strings sorting.

Set Warnings "-register-all,-clear-no-such-hyp".

Local Open Scope Z_scope.

(** ** Python values *)

Inductive json : Type :=
  | JNull
  | JBool (b : bool)
  | JInt (z : Z)
  | JFloat (lexeme : string)
  | JStr (s : string)
  | JArr (items : list json)
  | JObj (fields : list (string * json)).

(** [k in d] and [d.get(k)] on the fields of a dict (keys are unique, in
    insertion order). *)
Fixpoint dict_get (k : string) (d : list (string * json)) : option json :=
  match d with
  | [] => None
  | (k', v) :: d' => if String.eqb k k' then Some v else dict_get k d'
  end.

Definition dict_has (k : string) (d : list (string * json)) : bool :=
  match dict_get k d with Some _ => true | None => false end.

(** [d[k] = v]: an existing key keeps its position and takes the new value. *)
Fixpoint dict_set (k : string) (v : json) (d : list (string * json))
  : list (string * json) :=
  match d with
  | [] => [(k, v)]
  | (k', v') :: d' =>
      if String.eqb k k' then (k, v) :: d' else (k', v') :: dict_set k v d'
  end.

(** ** Python list slices *)

Module Py.

(** The adjustment of a slice bound [k] for a sequence of length [len]:
    a negative bound counts from the end, and the result is clamped to
    [0 .. len]. *)
Definition adjust (len : nat) (k : Z) : nat :=
  let k' := if k <? 0 then k + Z.of_nat len else k in
  Z.to_nat (Z.min (Z.max k' 0) (Z.of_nat len)).

(** [l[:k]] *)
Definition slice_to {A} (l : list A) (k : Z) : list A :=
  take (adjust (length l) k) l.

(** [l[k:]] *)
Definition slice_from {A} (l : list A) (k : Z) : list A :=
  drop (adjust (length l) k) l.

End Py.

(** ** EventSampler: [shrink_events] *)

(** An event of the log: [{ts, actor, action, target, meta}].  [e.get(f)]
    is the field, [None] when the key is missing or null. *)
Record event := Event {
  ts : option string;
  actor : option string;
  action : option string;
  target : option string;
  meta : json
}.

Definition protected_actions : list string :=
  ["match_start"; "match_end"; "plant"; "defuse"].

(** [e.get("action") in ("match_start", "match_end", "plant", "defuse")] *)
Definition is_protected (e : event) : bool :=
  match action e with
  | Some a => bool_decide (a ∈ protected_actions)
  | None => false
  end.

Definition dedup_key : Type :=
  option string * option string * option string * option string.

(** [(e.get("ts"), e.get("actor"), e.get("action"), e.get("target"))] *)
Definition event_key (e : event) : dedup_key :=
  (ts e, actor e, action e, target e).

(** The de-duplication loop over [merged], with its two accumulators. *)
Fixpoint dedup_loop (merged : list event) (seen : gset dedup_key)
    (uniq : list event) : list event :=
  match merged with
  | [] => uniq
  | e :: rest =>
      let key := event_key e in
      if decide (key ∈ seen) then dedup_loop rest seen uniq
      else dedup_loop rest ({[ key ]} ∪ seen) (uniq ++ [e])
  end.

(** [x.get("ts") or "Z"]: a missing, null or empty [ts] gives ["Z"]. *)
Definition sort_key (x : event) : string :=
  match ts x with
  | Some EmptyString => "Z"
  | Some s => s
  | None => "Z"
  end.

(** [list.sort] is stable: an element is placed before the first element
    of the sorted rest that is not smaller than it. *)
Section Sort.
Context {A : Type} (lt : A → A → bool).

Fixpoint sort_insert (x : A) (l : list A) : list A :=
  match l with
  | [] => [x]
  | y :: l' => if lt y x then y :: sort_insert x l' else x :: y :: l'
  end.

Fixpoint stable_sort (l : list A) : list A :=
  match l with
  | [] => []
  | x :: l' => sort_insert x (stable_sort l')
  end.
End Sort.

(** [l.sort(key=key)] with string keys. *)
Definition sort_by {A} (key : A → string) : list A → list A :=
  stable_sort (λ x y, String.ltb (key x) (key y)).

(** [head + keep + tail] and the de-duplicated list, as [shrink_events]
    builds them when the log is longer than [max_items]. *)
Definition merged_sample (events : list event) (max_items : Z) : list event :=
  Py.slice_to events (max_items / 2)
    ++ filter (λ e, is_protected e) events
    ++ Py.slice_from events ((- max_items) / 2).

Definition unique_sample (events : list event) (max_items : Z) : list event :=
  dedup_loop (merged_sample events max_items) ∅ [].

Definition shrink_events (events : list event) (max_items : Z) : list event :=
  if bool_decide (Z.of_nat (length events) ≤ max_items) then events
  else
    let head := Py.slice_to events (max_items / 2) in
    let tail := Py.slice_from events ((- max_items) / 2) in
    let keep := filter (λ e, is_protected e) events in
    let merged := head ++ keep ++ tail in
    let uniq := dedup_loop merged ∅ [] in
    let uniq := sort_by sort_key uniq in
    Py.slice_to uniq max_items.


(** The reference computation of the design document (section 4.1), in its
    own words: head and tail of [maxItems/2] events, the protected events,
    de-duplication keeping the first occurrence, a sort by [ts] with an
    absent [ts] last, truncation to [maxItems]. *)
Module ShrinkSpec.

Definition first_n {A} (n : nat) (l : list A) : list A := take n l.

Definition last_n {A} (n : nat) (l : list A) : list A :=
  drop (length l - n)%nat l.

Fixpoint dedup_first (l : list event) : list event :=
  match l with
  | [] => []
  | e :: r => e :: filter (λ x, event_key x ≠ event_key e) (dedup_first r)
  end.

(** Ascending by [ts]; an absent [ts] is larger than every present one. *)
Definition ts_lt (a b : option string) : bool :=
  match a, b with
  | Some x, Some y => String.ltb x y
  | Some _, None => true
  | None, _ => false
  end.

Definition shrink (events : list event) (maxItems : Z) : list event :=
  let half := Z.to_nat (maxItems / 2) in
  let merged :=
    first_n half events ++ filter (λ e, is_protected e) events
      ++ last_n half events in
  let sorted := stable_sort (λ x y, ts_lt (ts x) (ts y)) (dedup_first merged) in
  first_n (Z.to_nat maxItems) sorted.

End ShrinkSpec.

(** ** Text primitives *)

(** Python's whitespace test on the ASCII range: TAB..CR, FS..US, space. *)
Definition py_isspace (c : ascii) : bool :=
  let n := nat_of_ascii c in
  ((9 <=? n) && (n <=? 13) || (28 <=? n) && (n <=? 32))%nat.

Fixpoint lstrip (s : string) : string :=
  match s with
  | EmptyString => EmptyString
  | String c s' => if py_isspace c then lstrip s' else s
  end.

Fixpoint rstrip (s : string) : string :=
  match s with
  | EmptyString => EmptyString
  | String c s' =>
      match rstrip s' with
      | EmptyString => if py_isspace c then EmptyString else String c EmptyString
      | r => String c r
      end
  end.

(** [s.strip()] *)
Definition strip (s : string) : string := rstrip (lstrip s).

(** [s[n:]] for [0 <= n] *)
Fixpoint str_drop (n : nat) (s : string) : string :=
  match n, s with
  | O, _ => s
  | S n', String _ s' => str_drop n' s'
  | S _, EmptyString => EmptyString
  end.

(** [s.count(c)] for a one-character [c] *)
Fixpoint count_char (c : ascii) (s : string) : nat :=
  match s with
  | EmptyString => O
  | String c' s' => if Ascii.eqb c' c then S (count_char c s') else count_char c s'
  end.

(** [c * n]: no copy when [n <= 0] *)
Definition repeat_char (c : ascii) (n : Z) : string :=
  Nat.iter (Z.to_nat n) (String c) EmptyString.

(** [s.find(c)], [None] for -1 *)
Fixpoint find_char (c : ascii) (s : string) : option nat :=
  match s with
  | EmptyString => None
  | String c' s' => if Ascii.eqb c' c then Some O else S <$> find_char c s'
  end.

(** [sub in s] *)
Fixpoint str_contains (sub s : string) : bool :=
  String.prefix sub s ||
  match s with
  | EmptyString => false
  | String _ s' => str_contains sub s'
  end.

Definition fence : string := "```".

(** [re.sub] of [^```(?:json)?\s*] by the empty text: only a match at
    position 0. *)
Definition sub_leading_fence (s : string) : string :=
  if String.prefix fence s then
    let r := str_drop 3 s in
    let r := if String.prefix "json" r then str_drop 4 r else r in
    lstrip r
  else s.

(** Whether [\s*```$] matches at the start of [s]: the blanks are followed
    by a fence that ends the text ([$] also matches before a final
    newline); the result is what is left after the match. *)
Definition match_trailing_fence (s : string) : option string :=
  let r := lstrip s in
  if String.eqb r fence then Some EmptyString
  else if String.eqb r (fence +:+ String "010"%char EmptyString)
  then Some (String "010"%char EmptyString)
  else None.

(** [re.sub] of [\s*```$] by the empty text: the leftmost match is
    removed. *)
Fixpoint sub_trailing_fence (s : string) : string :=
  match match_trailing_fence s with
  | Some r => r
  | None =>
      match s with
      | EmptyString => EmptyString
      | String c s' => String c (sub_trailing_fence s')
      end
  end.

(** Removal of every match of a pattern, left to right and without
    overlap; [pats] lists the alternatives of the pattern in the order they
    are tried, and [skip] counts the characters of the current match still
    to be dropped. *)
Fixpoint remove_from (pats : list string) (skip : nat) (s : string) : string :=
  match s with
  | EmptyString => EmptyString
  | String c s' =>
      match skip with
      | S k => remove_from pats k s'
      | O =>
          match List.find (λ p, String.prefix p s) pats with
          | Some p => remove_from pats (String.length p - 1) s'
          | None => String c (remove_from pats 0 s')
          end
      end
  end.

(** [re.sub] of [```(?:json)?] by the empty text: a fence with its tag, or
    a fence. *)
Definition sub_fences (s : string) : string :=
  remove_from [fence +:+ "json"; fence] 0 s.

(** [s.replace] of a fence by the empty text. *)
Definition replace_fence (s : string) : string := remove_from [fence] 0 s.

(** ** ResponseExtractor *)

(** The scan of [extract_top_level_json] from the first brace: [i] is the
    index of the head of [rest]; the result is [end]. *)
Fixpoint extract_scan (rest : string) (i : nat) (depth : Z) : option nat :=
  match rest with
  | EmptyString => None
  | String ch rest' =>
      if Ascii.eqb ch "{" then extract_scan rest' (S i) (depth + 1)
      else if Ascii.eqb ch "}" then
        let depth := depth - 1 in
        if depth =? 0 then Some (S i) else extract_scan rest' (S i) depth
      else extract_scan rest' (S i) depth
  end.

Definition extract_top_level_json (s : string) : string :=
  match s with
  | EmptyString => s
  | _ =>
      let s := strip s in
      let s := sub_leading_fence s in
      let s := sub_trailing_fence s in
      match find_char "{" s with
      | None => s
      | Some start =>
          match extract_scan (str_drop start s) start 0 with
          | None => s
          | Some end_ => String.substring start (end_ - start) s
          end
      end
  end.

(** The loop of [find_all_top_level_json] over the cleaned text [s]:
    [rest] is what is left to read, [i] the index of its head. *)
Fixpoint find_all_loop (s rest : string) (i : nat) (depth : Z)
    (start : option nat) (out : list string) : list string :=
  match rest with
  | EmptyString => out
  | String ch rest' =>
      if Ascii.eqb ch "{" then
        find_all_loop s rest' (S i) (depth + 1)
          (if depth =? 0 then Some i else start) out
      else if Ascii.eqb ch "}" then
        if 0 <? depth then
          let depth := depth - 1 in
          match start with
          | Some st =>
              if depth =? 0 then
                find_all_loop s rest' (S i) depth None
                  (out ++ [String.substring st (S i - st) s])
              else find_all_loop s rest' (S i) depth start out
          | None => find_all_loop s rest' (S i) depth start out
          end
        else find_all_loop s rest' (S i) depth start out
      else find_all_loop s rest' (S i) depth start out
  end.

Definition find_all_top_level_json (s : string) : list string :=
  let s := strip s in
  let s := sub_fences s in
  let s := replace_fence s in
  find_all_loop s s 0 0 None [].

(** ** CandidateScorer and JSONRepairer *)

(** [float(lexeme) == 0.0] for the lexeme of a JSON number with a fraction
    or an exponent, which [json.loads] hands to [float]: an IEEE 754 double,
    rounded to nearest with ties to even. *)
Module PyFloat.

Definition is_digit (c : ascii) : bool :=
  let n := nat_of_ascii c in ((48 <=? n) && (n <=? 57))%nat.

(** The longest run of digits at the head of [s], and the rest. *)
Fixpoint span_digits (s : string) : string * string :=
  match s with
  | String c s' =>
      if is_digit c then let '(d, r) := span_digits s' in (String c d, r)
      else (EmptyString, s)
  | EmptyString => (EmptyString, EmptyString)
  end.

Fixpoint digits_val (acc : Z) (s : string) : Z :=
  match s with
  | String c s' => digits_val (10 * acc + (Z.of_nat (nat_of_ascii c) - 48)) s'
  | EmptyString => acc
  end.

(** The exponent part of a lexeme, [[eE][+-]?digits] or nothing. *)
Definition exponent (s : string) : option Z :=
  match s with
  | EmptyString => Some 0
  | String c r =>
      if Ascii.eqb c "e" || Ascii.eqb c "E" then
        let '(neg, r) :=
          match r with
          | String sg r' =>
              if Ascii.eqb sg "-" then (true, r')
              else if Ascii.eqb sg "+" then (false, r')
              else (false, r)
          | EmptyString => (false, r)
          end in
        match span_digits r with
        | (EmptyString, _) => None
        | (ds, EmptyString) =>
            Some (if neg then - digits_val 0 ds else digits_val 0 ds)
        | (_, String _ _) => None
        end
      else None
  end.

(** The magnitude [m * 10^e] of the lexeme
    [-?digits(.digits)?([eE][+-]?digits)?], as [(m, e)]; [None] for any
    other text, such as NaN and Infinity. *)
Definition decimal (lexeme : string) : option (Z * Z) :=
  let s :=
    match lexeme with
    | String c r => if Ascii.eqb c "-" then r else lexeme
    | EmptyString => lexeme
    end in
  let '(int_digits, r) := span_digits s in
  let '(frac_digits, r) :=
    match r with
    | String c r1 => if Ascii.eqb c "." then span_digits r1 else (EmptyString, r)
    | EmptyString => (EmptyString, r)
    end in
  match int_digits, exponent r with
  | String _ _, Some x =>
      Some (digits_val 0 (int_digits +:+ frac_digits),
            x - Z.of_nat (String.length frac_digits))
  | _, _ => None
  end.

(** The double nearest to [m * 10^e] is zero when [m] is zero, or when the
    magnitude is at most [2^-1075], half of the least positive double (the
    tie goes to zero, whose significand is even). *)
Definition is_zero (lexeme : string) : bool :=
  match decimal lexeme with
  | Some (m, e) => (m =? 0) || ((e <? 0) && (m * 2 ^ 1075 <=? 10 ^ (- e)))
  | None => false
  end.

End PyFloat.

(** Python truthiness of a decoded value ([if v:], [not v]): None, False,
    zero, the empty string, the empty list and the empty dict are false. *)
Definition py_truthy (v : json) : bool :=
  match v with
  | JNull => false
  | JBool b => b
  | JInt z => negb (z =? 0)
  | JFloat lexeme => negb (PyFloat.is_zero lexeme)
  | JStr s => negb (String.eqb s EmptyString)
  | JArr items => match items with [] => false | _ => true end
  | JObj fields => match fields with [] => false | _ => true end
  end.

Definition expected : list string := ["story"; "coaching"; "highlights"; "metrics"].

(** [isinstance(obj, dict) and "json" in obj] *)
Definition has_json_key (obj : json) : bool :=
  match obj with
  | JObj d => dict_has "json" d
  | _ => false
  end.

Definition wrap_if_needed (obj : json) : json :=
  match obj with
  | JObj d =>
      if negb (dict_has "json" d) && forallb (λ k, dict_has k d) expected
      then JObj [("json", obj)]
      else obj
  | _ => obj
  end.

(** The score of a normalised candidate, as computed in stage 3. *)
Definition candidate_score (obj : json) : Z :=
  let score := 0 in
  let root :=
    match obj with
    | JObj d => match dict_get "json" d with Some r => r | None => obj end
    | _ => JObj []
    end in
  let score := if has_json_key obj then score + 2 else score in
  match root with
  | JObj r =>
      fold_left (λ score k, if dict_has k r then score + 1 else score)
        expected score
  | _ => score
  end.

Section Recovery.
(** [json.loads]: [None] when it raises. *)
Variable loads : string → option json.

Definition naive_json_repair (trunc : string) : json :=
  let cand := strip (extract_top_level_json trunc) in
  match cand with
  | EmptyString => JNull
  | _ =>
      let cand :=
        if Z.of_nat (count_char "034" cand) mod 2 =? 1
        then cand +:+ String "034" EmptyString else cand in
      let balance (c0 c1 : ascii) : Z :=
        let opens := Z.of_nat (count_char c0 cand) in
        let closes := Z.of_nat (count_char c1 cand) in
        Z.max 0 (opens - closes) in
      let close_braces := balance "{"%char "}"%char in
      let close_brackets := balance "["%char "]"%char in
      let cand1 :=
        cand +:+ repeat_char "]" close_brackets +:+ repeat_char "}" close_braces in
      match loads cand1 with
      | Some v => v
      | None =>
          let cand2 :=
            cand +:+ repeat_char "}" close_braces
              +:+ repeat_char "]" close_brackets in
          match loads cand2 with
          | Some v => v
          | None => JNull
          end
      end
  end.

(** The loop of stage 3 over the candidates, with [best] and
    [best_score]. *)
Fixpoint score_loop (cands : list string) (best : json) (best_score : Z)
    : json * Z :=
  match cands with
  | [] => (best, best_score)
  | cand :: rest =>
      match loads cand with
      | None => score_loop rest best best_score
      | Some obj =>
          let obj := wrap_if_needed obj in
          let score := candidate_score obj in
          if best_score <? score then score_loop rest obj score
          else score_loop rest best best_score
      end
  end.

(** What the loop leaves in [best] (initially None, with score -1). *)
Definition pick_best (cands : list string) : json :=
  fst (score_loop cands JNull (-1)).

(** Stage 3 as a whole: [if best: return best]; [None] is falling
    through to the next stage. *)
Definition score_and_pick (cands : list string) : option json :=
  let best := pick_best cands in
  if py_truthy best then Some best else None.

Definition try_parse_or_coerce (raw_text : string) : json :=
  match loads raw_text with
  | Some obj => wrap_if_needed obj
  | None =>
      let single := extract_top_level_json raw_text in
      match loads single with
      | Some obj => wrap_if_needed obj
      | None =>
          match score_and_pick (find_all_top_level_json raw_text) with
          | Some best => best
          | None => naive_json_repair raw_text
          end
      end
  end.
End Recovery.

(** The repair of the design document (section 4.3), in its own words,
    applied to a fragment. *)
Module RepairSpec.

Definition odd_count (c : ascii) (s : string) : bool := Nat.odd (count_char c s).

Definition missing (opening closing : ascii) (s : string) : nat :=
  (count_char opening s - count_char closing s)%nat.

Fixpoint copies (n : nat) (c : ascii) : string :=
  match n with
  | O => EmptyString
  | S n' => String c (copies n' c)
  end.

Definition repair (parse : string → option json) (fragment : string) : json :=
  let fragment :=
    if odd_count "034" fragment then fragment +:+ String "034" EmptyString
    else fragment in
  let closeBraces := missing "{" "}" fragment in
  let closeBrackets := missing "[" "]" fragment in
  match parse (fragment +:+ copies closeBrackets "]" +:+ copies closeBraces "}") with
  | Some v => v
  | None =>
      match parse (fragment +:+ copies closeBraces "}" +:+ copies closeBrackets "]") with
      | Some v => v
      | None => JNull
      end
  end.

End RepairSpec.

(** ** ModelCaller: [call_gemini_json_with_retry] *)

Module ModelCaller.

(** What one [generate_content] request can do. *)
Inductive response :=
  | Text (text : string)                      (* a response with a text *)
  | NoText                                    (* no response, or an empty text *)
  | ResourceExhausted (retry_delay : option Z) (* 429, with [retry_delay.seconds] *)
  | OtherError.                               (* any other exception *)

(** What the caller does to the outside world, in order. *)
Inductive effect :=
  | Request (model : string)
  | Sleep (seconds : Z).

Inductive error :=
  | EmptyResponse      (* RuntimeError: no text in the response *)
  | BackendError       (* the exception of the request, raised again *)
  | ValueError         (* [time.sleep] of a negative length *)
  | RetriesExhausted.  (* RuntimeError: the loop ran out of attempts *)

Inductive outcome :=
  | Return (text : string)
  | Raise (e : error)
  | OutOfFuel.

Definition flash : string := "gemini-1.5-flash".

(** ["pro" in curr_model] *)
Definition is_pro (model : string) : bool := str_contains "pro" model.

Section Call.
(** The external model: the answer to the [n]-th request of the call,
    made with the given model name. *)
Variable backend : nat → string → response.

(** The [while attempt <= max_retries] loop; [fuel] bounds the number of
    iterations ([OutOfFuel] is never reached from the call below) and
    [trace] collects the effects. *)
Fixpoint retry_loop (fuel : nat) (max_retries attempt : Z)
    (curr_model : string) (trace : list effect) : outcome * list effect :=
  match fuel with
  | O => (OutOfFuel, trace)
  | S fuel' =>
      if attempt <=? max_retries then
        let trace := trace ++ [Request curr_model] in
        match backend (Z.to_nat attempt) curr_model with
        | Text text => (Return text, trace)
        | ResourceExhausted retry_delay =>
            let delay := 20 in
            let delay :=
              match retry_delay with
              | Some seconds => if seconds =? 0 then delay else seconds
              | None => delay
              end in
            let nap := Z.min delay 60 in
            if nap <? 0 then (Raise ValueError, trace)
            else
              let trace := trace ++ [Sleep nap] in
              let curr_model := if is_pro curr_model then flash else curr_model in
              retry_loop fuel' max_retries (attempt + 1) curr_model trace
        | NoText =>
            if is_pro curr_model then
              retry_loop fuel' max_retries (attempt + 1) flash trace
            else (Raise EmptyResponse, trace)
        | OtherError =>
            if is_pro curr_model then
              retry_loop fuel' max_retries (attempt + 1) flash trace
            else (Raise BackendError, trace)
        end
      else (Raise RetriesExhausted, trace)
  end.

Definition call_gemini_json_with_retry (model_name : string) (max_retries : Z)
    : outcome * list effect :=
  retry_loop (S (Z.to_nat (max_retries + 1))) max_retries 0 model_name [].
End Call.

(** The model names of the requests of a trace, in order. *)
Definition requested (trace : list effect) : list string :=
  omap (λ e, match e with Request m => Some m | Sleep _ => None end) trace.

End ModelCaller.

(** ** A reference decoder for [json.loads]

    The JSON grammar as Python's decoder accepts it (strict mode): blanks
    are space, TAB, LF and CR; a repeated key keeps its first position and
    its last value; [NaN], [Infinity] and [-Infinity] are accepted; a number
    with a fraction or an exponent is kept as its lexeme.  Not modelled: a
    leading byte-order mark and the limit on the number of digits of an
    integer, which make Python raise.  The general statements below hold
    for every decoder; this one runs the tools on the sample texts. *)
Module Decoder.

Definition is_ws (c : ascii) : bool :=
  Ascii.eqb c " " || Ascii.eqb c "009" || Ascii.eqb c "010" || Ascii.eqb c "013".

Fixpoint skip_ws (s : string) : string :=
  match s with
  | String c s' => if is_ws c then skip_ws s' else s
  | EmptyString => EmptyString
  end.

Definition is_digit (c : ascii) : bool :=
  let n := nat_of_ascii c in ((48 <=? n) && (n <=? 57))%nat.

Definition digit_val (c : ascii) : Z := Z.of_nat (nat_of_ascii c) - 48.

(** The longest run of digits at the head of [s], and the rest. *)
Fixpoint span_digits (s : string) : string * string :=
  match s with
  | String c s' =>
      if is_digit c then let '(d, r) := span_digits s' in (String c d, r)
      else (EmptyString, s)
  | EmptyString => (EmptyString, EmptyString)
  end.

Fixpoint digits_val (acc : Z) (s : string) : Z :=
  match s with
  | String c s' => digits_val (10 * acc + digit_val c) s'
  | EmptyString => acc
  end.

Definition hex_val (c : ascii) : option Z :=
  let n := nat_of_ascii c in
  if ((48 <=? n) && (n <=? 57))%nat then Some (Z.of_nat n - 48)
  else if ((97 <=? n) && (n <=? 102))%nat then Some (Z.of_nat n - 87)
  else if ((65 <=? n) && (n <=? 70))%nat then Some (Z.of_nat n - 55)
  else None.

(** Four hexadecimal digits at the head of [s]. *)
Definition hex4 (s : string) : option (Z * string) :=
  match s with
  | String a (String b (String c (String d r))) =>
      match hex_val a, hex_val b, hex_val c, hex_val d with
      | Some a, Some b, Some c, Some d => Some (((a * 16 + b) * 16 + c) * 16 + d, r)
      | _, _, _, _ => None
      end
  | _ => None
  end.

Definition byte (z : Z) : ascii := ascii_of_nat (Z.to_nat z).

(** The bytes of a code point. *)
Definition utf8 (cp : Z) : string :=
  if cp <? 128 then String (byte cp) EmptyString
  else if cp <? 2048 then
    String (byte (192 + cp / 64)) (String (byte (128 + cp mod 64)) EmptyString)
  else if cp <? 65536 then
    String (byte (224 + cp / 4096))
      (String (byte (128 + (cp / 64) mod 64))
         (String (byte (128 + cp mod 64)) EmptyString))
  else
    String (byte (240 + cp / 262144))
      (String (byte (128 + (cp / 4096) mod 64))
         (String (byte (128 + (cp / 64) mod 64))
            (String (byte (128 + cp mod 64)) EmptyString))).

(** A [\uXXXX] escape, [s] being what follows the [u]; a high surrogate
    followed by an escaped low surrogate makes one code point. *)
Definition unicode_escape (s : string) : option (string * string) :=
  match hex4 s with
  | None => None
  | Some (hi, r) =>
      let single := Some (utf8 hi, r) in
      if (55296 <=? hi) && (hi <=? 56319) then
        match r with
        | String "\" (String "u" r') =>
            match hex4 r' with
            | Some (lo, r'') =>
                if (56320 <=? lo) && (lo <=? 57343)
                then Some (utf8 (65536 + (hi - 55296) * 1024 + (lo - 56320)), r'')
                else single
            | None => single
            end
        | _ => single
        end
      else single
  end.

Definition simple_escape (c : ascii) : option ascii :=
  if Ascii.eqb c "034" then Some "034"%char
  else if Ascii.eqb c "\" then Some "\"%char
  else if Ascii.eqb c "/" then Some "/"%char
  else if Ascii.eqb c "b" then Some "008"%char
  else if Ascii.eqb c "f" then Some "012"%char
  else if Ascii.eqb c "n" then Some "010"%char
  else if Ascii.eqb c "r" then Some "013"%char
  else if Ascii.eqb c "t" then Some "009"%char
  else None.

(** The body of a string literal, after the opening quote. *)
Fixpoint scan_string (fuel : nat) (s : string) : option (string * string) :=
  match fuel with
  | O => None
  | S fuel' =>
      match s with
      | EmptyString => None
      | String c s' =>
          if Ascii.eqb c "034" then Some (EmptyString, s')
          else if Ascii.eqb c "\" then
            match s' with
            | EmptyString => None
            | String e s'' =>
                if Ascii.eqb e "u" then
                  match unicode_escape s'' with
                  | Some (bytes, r) =>
                      match scan_string fuel' r with
                      | Some (body, r') => Some (bytes +:+ body, r')
                      | None => None
                      end
                  | None => None
                  end
                else
                  match simple_escape e with
                  | Some x =>
                      match scan_string fuel' s'' with
                      | Some (body, r') => Some (String x body, r')
                      | None => None
                      end
                  | None => None
                  end
            end
          else if (nat_of_ascii c <? 32)%nat then None
          else
            match scan_string fuel' s' with
            | Some (body, r') => Some (String c body, r')
            | None => None
            end
      end
  end.

(** The prefix of [s] of the length of [whole] minus that of [rest]. *)
Definition consumed (whole rest : string) : string :=
  String.substring 0 (String.length whole - String.length rest) whole.

(** A number at the head of [s]: an optional minus sign, then 0 or a run
    of digits that does not start with 0, then optionally a dot with at
    least one digit, then optionally an exponent (e or E, an optional
    sign, at least one digit). *)
Definition scan_number (s : string) : option (json * string) :=
  let '(neg, s1) :=
    match s with
    | String c r => if Ascii.eqb c "-" then (true, r) else (false, s)
    | EmptyString => (false, s)
    end in
  let int_part :=
    match s1 with
    | String c r =>
        if Ascii.eqb c "0" then Some (String c EmptyString, r)
        else if is_digit c then Some (span_digits s1)
        else None
    | EmptyString => None
    end in
  match int_part with
  | None => None
  | Some (ds, r) =>
      let after_frac :=
        match r with
        | String c r1 =>
            if Ascii.eqb c "." then
              match span_digits r1 with
              | (EmptyString, _) => r
              | (_, r2) => r2
              end
            else r
        | EmptyString => r
        end in
      let after_exp :=
        match after_frac with
        | String c r1 =>
            if Ascii.eqb c "e" || Ascii.eqb c "E" then
              let r2 :=
                match r1 with
                | String sg r' =>
                    if Ascii.eqb sg "-" || Ascii.eqb sg "+" then r' else r1
                | EmptyString => r1
                end in
              match span_digits r2 with
              | (EmptyString, _) => after_frac
              | (_, r3) => r3
              end
            else after_frac
        | EmptyString => after_frac
        end in
      if (String.length after_exp =? String.length r)%nat then
        let z := digits_val 0 ds in
        Some (JInt (if neg then - z else z), r)
      else Some (JFloat (consumed s after_exp), after_exp)
  end.

Definition literals : list (string * json) :=
  [("null", JNull); ("true", JBool true); ("false", JBool false)].

Definition float_literals : list (string * json) :=
  [("NaN", JFloat "NaN"); ("Infinity", JFloat "Infinity");
   ("-Infinity", JFloat "-Infinity")].

Fixpoint scan_literal (table : list (string * json)) (s : string)
    : option (json * string) :=
  match table with
  | [] => None
  | (word, v) :: table' =>
      if String.prefix word s then Some (v, str_drop (String.length word) s)
      else scan_literal table' s
  end.

(** One value at the head of [s] (no blank is skipped before it), the
    elements of an array after a first blank-skipping, and the members of
    an object. *)
Fixpoint scan_value (fuel : nat) (s : string) : option (json * string) :=
  match fuel with
  | O => None
  | S fuel' =>
      match s with
      | EmptyString => None
      | String c r =>
          if Ascii.eqb c "034" then
            match scan_string (String.length s) r with
            | Some (body, r') => Some (JStr body, r')
            | None => None
            end
          else if Ascii.eqb c "{" then
            match skip_ws r with
            | String c' r' =>
                if Ascii.eqb c' "}" then Some (JObj [], r')
                else scan_members fuel' (skip_ws r) []
            | EmptyString => None
            end
          else if Ascii.eqb c "[" then
            match skip_ws r with
            | String c' r' =>
                if Ascii.eqb c' "]" then Some (JArr [], r')
                else scan_elements fuel' (skip_ws r) []
            | EmptyString => None
            end
          else
            match scan_literal literals s with
            | Some res => Some res
            | None =>
                match scan_number s with
                | Some res => Some res
                | None => scan_literal float_literals s
                end
            end
      end
  end
with scan_elements (fuel : nat) (s : string) (acc : list json)
    : option (json * string) :=
  match fuel with
  | O => None
  | S fuel' =>
      match scan_value fuel' s with
      | None => None
      | Some (v, r) =>
          match skip_ws r with
          | String c r' =>
              if Ascii.eqb c "]" then Some (JArr (acc ++ [v]), r')
              else if Ascii.eqb c "," then scan_elements fuel' (skip_ws r') (acc ++ [v])
              else None
          | EmptyString => None
          end
      end
  end
with scan_members (fuel : nat) (s : string) (acc : list (string * json))
    : option (json * string) :=
  match fuel with
  | O => None
  | S fuel' =>
      match s with
      | String q r =>
          if Ascii.eqb q "034" then
            match scan_string (String.length s) r with
            | None => None
            | Some (key, r1) =>
                match skip_ws r1 with
                | String colon r2 =>
                    if Ascii.eqb colon ":" then
                      match scan_value fuel' (skip_ws r2) with
                      | None => None
                      | Some (v, r3) =>
                          match skip_ws r3 with
                          | String c r4 =>
                              if Ascii.eqb c "}"
                              then Some (JObj (dict_set key v acc), r4)
                              else if Ascii.eqb c ","
                              then scan_members fuel' (skip_ws r4) (dict_set key v acc)
                              else None
                          | EmptyString => None
                          end
                      end
                    else None
                | EmptyString => None
                end
            end
          else None
      | EmptyString => None
      end
  end.

End Decoder.

(** [json.loads(s)]: one value, blanks allowed around it, nothing else. *)
Definition json_loads (s : string) : option json :=
  match Decoder.scan_value (2 * String.length s + 2) (Decoder.skip_ws s) with
  | Some (v, r) =>
      match Decoder.skip_ws r with
      | EmptyString => Some v
      | _ => None
      end
  | None => None
  end.


(** ** PipelineOrchestrator: [main]

    The run after the events are loaded: sampling, the first call and
    recovery, the compacted retry, the report or the failure.  The prompts
    are built from the templates and [json.dumps] of the sampled events;
    they are taken as functions of the events, and the external model
    answers a prompt as [ModelCaller] expects it. *)
Module Pipeline.

(** How a run ends. *)
Inductive ending :=
  | Report (report : json)      (* [wrapper["json"]] is written or printed *)
  | Failed (raw2 : string)      (* [raw2] goes to gemini_raw_response.txt, [sys.exit] *)
  | CallRaised (e : ModelCaller.error) (* a call raises, nothing catches it *)
  | TypeError                   (* [in] or a subscript on a value without it *)
  | KeyError                    (* [wrapper["json"]] on a dict without the key *)
  | NoEnding.                   (* the loop bound of the model; never reached *)

(** ["json" in wrapper]: a key of a dict, an item of a list, a part of a
    string; [None] when Python raises TypeError. *)
Definition contains_json (wrapper : json) : option bool :=
  match wrapper with
  | JObj d => Some (dict_has "json" d)
  | JArr items =>
      Some (existsb (λ v, match v with
                          | JStr s => String.eqb s "json"
                          | _ => false
                          end) items)
  | JStr s => Some (str_contains "json" s)
  | _ => None
  end.

(** [not wrapper or "json" not in wrapper] *)
Definition rejected (wrapper : json) : option bool :=
  if negb (py_truthy wrapper) then Some true
  else negb <$> contains_json wrapper.

(** [report = wrapper["json"]], then the output of the report. *)
Definition report_of (wrapper : json) : ending :=
  match wrapper with
  | JObj d =>
      match dict_get "json" d with
      | Some report => Report report
      | None => KeyError
      end
  | _ => TypeError
  end.

Section Main.
(** [json.loads] *)
Variable loads : string → option json.
(** The external model, by prompt. *)
Variable model : string → nat → string → ModelCaller.response.
(** The full prompt and the compacted one, for the sampled events. *)
Variables prompt short_prompt : list event → string.
(** [os.getenv("MODEL_NAME", "gemini-1.5-flash")] *)
Variable model_name : string.

Definition main (events : list event) : ending * list ModelCaller.effect :=
  let events := shrink_events events 160 in
  match ModelCaller.call_gemini_json_with_retry (model (prompt events)) model_name 2 with
  | (ModelCaller.Return raw, trace) =>
      let wrapper := try_parse_or_coerce loads raw in
      match rejected wrapper with
      | None => (TypeError, trace)
      | Some false => (report_of wrapper, trace)
      | Some true =>
          match ModelCaller.call_gemini_json_with_retry
                  (model (short_prompt events)) model_name 2 with
          | (ModelCaller.Return raw2, trace2) =>
              let wrapper := try_parse_or_coerce loads raw2 in
              match rejected wrapper with
              | None => (TypeError, trace ++ trace2)
              | Some false => (report_of wrapper, trace ++ trace2)
              | Some true => (Failed raw2, trace ++ trace2)
              end
          | (ModelCaller.Raise e, trace2) => (CallRaised e, trace ++ trace2)
          | (ModelCaller.OutOfFuel, trace2) => (NoEnding, trace ++ trace2)
          end
      end
  | (ModelCaller.Raise e, trace) => (CallRaised e, trace)
  | (ModelCaller.OutOfFuel, trace) => (NoEnding, trace)
  end.
End Main.

End Pipeline.

(** ** Vocabulary of the statements *)

(** The text [extract_top_level_json] looks for a block in. *)
Definition extract_clean (s : string) : string :=
  sub_trailing_fence (sub_leading_fence (strip s)).

(** A text from an opening brace to the closing brace that brings the depth
    back to zero, as the scan of [extract_top_level_json] reads it. *)
Definition balanced_block (b : string) : Prop :=
  String.prefix "{" b = true ∧ extract_scan b 0 0 = Some (String.length b).

(** A text that ends with a closing brace. *)
Definition ends_with_close (b : string) : Prop :=
  ∃ body, b = body +:+ "}".

(** Opening braces minus closing braces, as an integer. *)
Definition brace_excess (s : string) : Z :=
  Z.of_nat (count_char "{" s) - Z.of_nat (count_char "}" s).

(** The number of backticks at the head of [s]. *)
Fixpoint leading_ticks (s : string) : nat :=
  match s with
  | String c s' => if Ascii.eqb c "`" then S (leading_ticks s') else O
  | EmptyString => O
  end.

(** [x] comes before [y], or with it, by the string key [key]. *)
Definition key_le {A} (key : A → string) (x y : A) : Prop :=
  String.le (key x) (key y).

(** The requests of a trace made to a pro model. *)
Definition pro_requests (trace : list ModelCaller.effect) : list string :=
  filter (λ m, ModelCaller.is_pro m) (ModelCaller.requested trace).

(** The sleeps of a trace, in seconds. *)
Definition sleeps (trace : list ModelCaller.effect) : list Z :=
  omap (λ e, match e with
             | ModelCaller.Sleep d => Some d
             | ModelCaller.Request _ => None
             end) trace.

(** A text made of closing brackets and braces only. *)
Fixpoint only_closers (s : string) : bool :=
  match s with
  | EmptyString => true
  | String c s' => (Ascii.eqb c "]" || Ascii.eqb c "}") && only_closers s'
  end.

(** [expected.issubset(obj.keys())] for a dict. *)
Definition has_report_fields (obj : json) : bool :=
  match obj with
  | JObj d => forallb (λ k, dict_has k d) expected
  | _ => false
  end.

(** The candidates that parse, normalised, in order. *)
Definition parsed_candidates (loads : string → option json) (cands : list string)
    : list json :=
  omap (λ cand, wrap_if_needed <$> loads cand) cands.

(** The text [find_all_top_level_json] scans for the stripped text [s]. *)
Definition clean_fences (s : string) : string := replace_fence (sub_fences s).

(** The depth counter of the loop of [find_all_top_level_json] after it has
    read [s], starting from [depth]. *)
Fixpoint scan_depth (s : string) (depth : Z) : Z :=
  match s with
  | EmptyString => depth
  | String ch s' =>
      if Ascii.eqb ch "{" then scan_depth s' (depth + 1)
      else if Ascii.eqb ch "}" then
        if 0 <? depth then scan_depth s' (depth - 1) else scan_depth s' depth
      else scan_depth s' depth
  end.

(** The same loop with the text of the open block in place of its start
    index: [cur] is the block read so far, empty at depth 0. *)
Fixpoint blocks (rest : string) (depth : Z) (cur : string) : list string :=
  match rest with
  | EmptyString => []
  | String ch rest' =>
      let cur' := cur +:+ String ch EmptyString in
      if Ascii.eqb ch "{" then blocks rest' (depth + 1) cur'
      else if Ascii.eqb ch "}" then
        if 0 <? depth then
          if depth - 1 =? 0 then cur' :: blocks rest' (depth - 1) EmptyString
          else blocks rest' (depth - 1) cur'
        else blocks rest' depth cur
      else blocks rest' depth (if 0 <? depth then cur' else cur)
  end.

(** The open block after [s] has been read. *)
Fixpoint open_block (s : string) (depth : Z) (cur : string) : string :=
  match s with
  | EmptyString => cur
  | String ch s' =>
      let cur' := cur +:+ String ch EmptyString in
      if Ascii.eqb ch "{" then open_block s' (depth + 1) cur'
      else if Ascii.eqb ch "}" then
        if 0 <? depth then
          if depth - 1 =? 0 then open_block s' (depth - 1) EmptyString
          else open_block s' (depth - 1) cur'
        else open_block s' depth cur
      else open_block s' depth (if 0 <? depth then cur' else cur)
  end.

(** [c] occurs in no pattern of [pats], and no pattern is empty. *)
Definition inert (pats : list string) (c : ascii) : Prop :=
  Forall (λ p, count_char c p = 0%nat ∧ p ≠ EmptyString) pats.

(** A present [ts] is not empty and sorts before ["Z"], as every ISO-8601
    timestamp does (it starts with a digit). *)
Definition ts_before_absent (e : event) : bool :=
  match ts e with
  | Some s => negb (String.eqb s EmptyString) && String.ltb s "Z"
  | None => true
  end.

(** A character that occurs in no fence marker. *)
Definition fence_inert (c : ascii) : bool :=
  negb (Ascii.eqb c "`") && negb (Ascii.eqb c "j") && negb (Ascii.eqb c "s")
  && negb (Ascii.eqb c "o") && negb (Ascii.eqb c "n").

(** The first [k] characters of [s] are not braces. *)
Fixpoint no_brace_upto (k : nat) (s : string) : bool :=
  match k, s with
  | S k', String c s' =>
      negb (Ascii.eqb c "{") && negb (Ascii.eqb c "}") && no_brace_upto k' s'
  | _, _ => true
  end.

(** A text of blanks only. *)
Fixpoint all_space (s : string) : bool :=
  match s with
  | EmptyString => true
  | String c s' => py_isspace c && all_space s'
  end.

(** The tier of a model name, as the caller tells it: 1 for a name that
    contains pro, 0 otherwise. *)
Definition tier (model : string) : nat :=
  if ModelCaller.is_pro model then 1%nat else 0%nat.

(** ** Sample data *)

Definition dq : string := String "034" EmptyString.

(** [s] between double quotes. *)
Definition quoted (s : string) : string := dq +:+ s +:+ dq.

(** An event of player p1 at time [t]. *)
Definition sample_event (t action : string) : event :=
  Event (Some t) (Some "p1") (Some action) (Some "p2") (JObj []).

Definition five_kills : list event :=
  [sample_event "2024-01-01T10:00:01" "kill";
   sample_event "2024-01-01T10:00:02" "kill";
   sample_event "2024-01-01T10:00:03" "kill";
   sample_event "2024-01-01T10:00:04" "kill";
   sample_event "2024-01-01T10:00:05" "kill"].

Definition doubled_plants : list event :=
  [sample_event "2024-01-01T10:00:01" "plant";
   sample_event "2024-01-01T10:00:01" "plant";
   sample_event "2024-01-01T10:00:02" "plant";
   sample_event "2024-01-01T10:00:02" "plant"].

(** An object with the single key a. *)
Definition plain_object : string := "{" +:+ quoted "a" +:+ ": 1}".

(** A wrapper with a story and a field n, cut inside the string of n. *)
Definition truncated_wrapper : string :=
  "{" +:+ quoted "json" +:+ ": {" +:+ quoted "story" +:+ ": [1, 2], "
    +:+ quoted "n" +:+ ": " +:+ dq +:+ "ab".

Definition newline : string := String "010" EmptyString.

(** A model whose every request fails with an error other than the quota. *)
Definition always_fails (n : nat) (model : string) : ModelCaller.response :=
  ModelCaller.OtherError.

(** A model that gives the same text to every request, whatever the prompt. *)
Definition answers (raw : string) (prompt : string) (n : nat) (model : string)
  : ModelCaller.response :=
  ModelCaller.Text raw.

(** A prompt that does not depend on the events. *)
Definition fixed_prompt (text : string) (events : list event) : string := text.

(** A model that is always over quota, without a suggested delay. *)
Definition always_quota (n : nat) (model : string) : ModelCaller.response :=
  ModelCaller.ResourceExhausted None.

(** A wrapper whose report has the four fields. *)
Definition full_wrapper : string :=
  "{" +:+ quoted "json" +:+ ": {" +:+ quoted "story" +:+ ": 1, "
    +:+ quoted "coaching" +:+ ": 2, " +:+ quoted "highlights" +:+ ": 3, "
    +:+ quoted "metrics" +:+ ": 4}}".

Definition full_wrapper_value : json :=
  JObj [("json", JObj [("story", JInt 1); ("coaching", JInt 2);
                       ("highlights", JInt 3); ("metrics", JInt 4)])].

(** An object whose only key is json, with a number under it. *)
Definition json_number : string := "{" +:+ quoted "json" +:+ ": 1}".

(** A first request that exceeds the quota with a suggested delay of five
    seconds, then answers. *)
Definition quota_then_text (n : nat) (model : string) : ModelCaller.response :=
  match n with
  | O => ModelCaller.ResourceExhausted (Some 5)
  | S _ => ModelCaller.Text "{}"
  end.

(** A kill whose [ts] is not a timestamp and sorts after ["Z"], then two
    kills without a timestamp. *)
Definition late_ts : list event :=
  [sample_event "late" "kill";
   Event None (Some "p1") (Some "kill") (Some "p2") (JObj []);
   Event None (Some "p3") (Some "kill") (Some "p4") (JObj [])].

(** Five events with different keys; the plant is neither in the head nor
    in the tail of a sample of four. *)
Definition plant_in_middle : list event :=
  [sample_event "2024-01-01T10:00:01" "kill";
   sample_event "2024-01-01T10:00:02" "kill";
   sample_event "2024-01-01T10:00:03" "plant";
   sample_event "2024-01-01T10:00:04" "kill";
   sample_event "2024-01-01T10:00:05" "kill"].

Definition three_plants : list event :=
  [sample_event "2024-01-01T10:00:01" "plant";
   sample_event "2024-01-01T10:00:02" "plant";
   sample_event "2024-01-01T10:00:03" "plant"].

(** * Properties *)

(** ** EventSampler *)

Lemma adjust_le len k : (Py.adjust len k ≤ len)%nat.
Proof. unfold Py.adjust. destruct (k <? 0); lia. Qed.

Lemma adjust_nonneg len k : 0 ≤ k → Py.adjust len k = Nat.min (Z.to_nat k) len.
Proof.
  intros Hk. unfold Py.adjust.
  destruct (Z.ltb_spec k 0); lia.
Qed.

Lemma slice_to_subseteq {A} (l : list A) k : Py.slice_to l k ⊆ l.
Proof. apply subseteq_take. Qed.

Lemma slice_from_subseteq {A} (l : list A) k : Py.slice_from l k ⊆ l.
Proof. apply subseteq_drop. Qed.

Lemma slice_to_length {A} (l : list A) k :
  0 ≤ k → Z.of_nat (length (Py.slice_to l k)) ≤ k.
Proof.
  intros Hk. unfold Py.slice_to. rewrite length_take, adjust_nonneg by done. lia.
Qed.

Lemma slice_to_all {A} (l : list A) k :
  Z.of_nat (length l) ≤ k → Py.slice_to l k = l.
Proof.
  intros Hk. unfold Py.slice_to. rewrite adjust_nonneg by lia.
  apply take_ge. lia.
Qed.

Section SortFacts.
Context {A : Type} (lt : A → A → bool).

Lemma sort_insert_perm x l : sort_insert lt x l ≡ₚ x :: l.
Proof.
  induction l as [|y l IH]; simpl; [done|].
  destruct (lt y x); [|done]. rewrite IH. apply Permutation_swap.
Qed.

Lemma stable_sort_perm l : stable_sort lt l ≡ₚ l.
Proof.
  induction l as [|x l IH]; simpl; [done|].
  by rewrite sort_insert_perm, IH.
Qed.
End SortFacts.

Lemma dedup_loop_elem merged seen uniq e :
  e ∈ dedup_loop merged seen uniq → e ∈ uniq ∨ e ∈ merged.
Proof.
  revert seen uniq. induction merged as [|x rest IH]; intros seen uniq; simpl.
  - by left.
  - case_decide; intros [He|He]%IH; set_solver.
Qed.

(** Every key met by the loop is the key of an event of its result. *)
Lemma dedup_loop_covers merged seen uniq e :
  (∀ k, k ∈ seen ↔ ∃ x, x ∈ uniq ∧ event_key x = k) →
  e ∈ uniq ∨ e ∈ merged →
  ∃ e', e' ∈ dedup_loop merged seen uniq ∧ event_key e' = event_key e.
Proof.
  revert seen uniq e.
  induction merged as [|x rest IH]; intros seen uniq e Hseen He; simpl.
  - destruct He as [He|He]; [eauto | by apply elem_of_nil in He].
  - case_decide as Hx.
    + destruct He as [He|[->|He]%elem_of_cons]; [eauto..| |eauto].
      apply Hseen in Hx as (x' & Hx' & Hk).
      destruct (IH seen uniq x' Hseen (or_introl Hx')) as (e' & ? & ?).
      exists e'. split; [done | congruence].
    + apply IH.
      * intros k. rewrite elem_of_union, elem_of_singleton, Hseen.
        split.
        -- intros [->|(y & ? & ?)]; [exists x | exists y]; set_solver.
        -- intros (y & [Hy| ->%list_elem_of_singleton]%elem_of_app & Hk); eauto.
      * set_solver.
Qed.

Lemma shrink_events_short events max_items :
  Z.of_nat (length events) ≤ max_items → shrink_events events max_items = events.
Proof. intros H. unfold shrink_events. by rewrite bool_decide_eq_true_2. Qed.

Lemma shrink_events_long events max_items :
  max_items < Z.of_nat (length events) →
  shrink_events events max_items =
    Py.slice_to (sort_by sort_key (unique_sample events max_items)) max_items.
Proof.
  intros H. unfold shrink_events. by rewrite bool_decide_eq_false_2 by lia.
Qed.

(** C8: every event of the output of [shrink_events] is an event of its
    input, with all its fields: the sampler selects, de-duplicates, reorders
    and truncates, and builds no event of its own. *)
Theorem shrink_events_selects events max_items e :
  e ∈ shrink_events events max_items → e ∈ events.
Proof.
  unfold shrink_events. case_bool_decide; [done|].
  intros He%slice_to_subseteq. unfold sort_by in He.
  rewrite stable_sort_perm in He.
  apply dedup_loop_elem in He as [He|He]; [by apply elem_of_nil in He|].
  rewrite !elem_of_app in He. destruct He as [He|[He|He]].
  - by apply slice_to_subseteq in He.
  - by apply list_elem_of_filter in He as [_ ?].
  - by apply slice_from_subseteq in He.
Qed.

Lemma shrink_events_selects_witness :
  sample_event "2024-01-01T10:00:04" "kill" ∈ five_kills.
Proof.
  apply (shrink_events_selects five_kills 3).
  assert (shrink_events five_kills 3
          = [sample_event "2024-01-01T10:00:01" "kill";
             sample_event "2024-01-01T10:00:04" "kill";
             sample_event "2024-01-01T10:00:05" "kill"]) as ->
    by (vm_compute; reflexivity).
  apply list_elem_of_further, list_elem_of_here.
Defined.

(** The size ceiling: the output never has more than [max_items] events. *)
Lemma shrink_events_length events max_items :
  0 ≤ max_items → Z.of_nat (length (shrink_events events max_items)) ≤ max_items.
Proof.
  intros Hm. unfold shrink_events. case_bool_decide; [done|].
  by apply slice_to_length.
Qed.

(** C7, for a size bound that is not negative: [shrink_events] returns its
    own output unchanged. *)
Theorem shrink_events_idempotent events max_items :
  0 ≤ max_items →
  shrink_events (shrink_events events max_items) max_items
  = shrink_events events max_items.
Proof.
  intros Hm. apply shrink_events_short. by apply shrink_events_length.
Qed.

Lemma shrink_events_idempotent_witness :
  0 ≤ 3 ∧
  shrink_events (shrink_events five_kills 3) 3 = shrink_events five_kills 3.
Proof. split; [lia | apply shrink_events_idempotent; lia]. Defined.

(** C7 as stated fails for a negative bound: with [max_items = -1] the
    slice [uniq[:-1]] drops the last event at each application. *)
Lemma shrink_events_negative_not_idempotent :
  shrink_events (shrink_events three_plants (-1)) (-1)
  ≠ shrink_events three_plants (-1).
Proof. vm_compute. discriminate. Qed.

(** *** The sampler against its reference *)

Lemma slice_to_take {A} (l : list A) k :
  0 ≤ k → Py.slice_to l k = take (Z.to_nat k) l.
Proof.
  intros Hk. unfold Py.slice_to. rewrite adjust_nonneg by done.
  destruct (decide (Z.to_nat k ≤ length l)%nat).
  - by rewrite Nat.min_l.
  - rewrite Nat.min_r by lia. by rewrite !take_ge by lia.
Qed.

Lemma slice_from_last {A} (l : list A) k :
  0 < k → k ≤ Z.of_nat (length l) →
  Py.slice_from l (- k) = ShrinkSpec.last_n (Z.to_nat k) l.
Proof.
  intros Hk Hlen. unfold Py.slice_from, ShrinkSpec.last_n, Py.adjust.
  destruct (Z.ltb_spec (- k) 0); [|lia]. f_equal. lia.
Qed.

(** The loop with its set of seen keys keeps the first event of each key. *)
Lemma dedup_loop_first merged seen uniq :
  dedup_loop merged seen uniq
  = uniq ++ filter (λ x, event_key x ∉ seen) (ShrinkSpec.dedup_first merged).
Proof.
  revert seen uniq. induction merged as [|e rest IH]; intros seen uniq; simpl.
  { by rewrite filter_nil, app_nil_r. }
  case_decide as He.
  - rewrite IH, filter_cons_False by naive_solver. f_equal.
    rewrite list_filter_filter. apply list_filter_iff. intros x.
    split; [|naive_solver]. intros Hx. split; [done|]. congruence.
  - rewrite IH, filter_cons_True, <- app_assoc by done. simpl. do 2 f_equal.
    rewrite list_filter_filter. apply list_filter_iff. intros x.
    rewrite not_elem_of_union, not_elem_of_singleton. naive_solver.
Qed.

Lemma dedup_loop_dedup_first merged :
  dedup_loop merged ∅ [] = ShrinkSpec.dedup_first merged.
Proof.
  rewrite dedup_loop_first. simpl.
  induction (ShrinkSpec.dedup_first merged) as [|x l IH]; [done|].
  rewrite filter_cons_True by set_solver. by rewrite IH.
Qed.

Lemma sort_insert_ext {A} (lt1 lt2 : A → A → bool) x l :
  (∀ y, y ∈ l → lt1 y x = lt2 y x) →
  sort_insert lt1 x l = sort_insert lt2 x l.
Proof.
  induction l as [|y l IH]; intros Hext; simpl; [done|].
  assert (lt1 y x = lt2 y x) as -> by apply Hext, list_elem_of_here.
  destruct (lt2 y x); [|done].
  rewrite IH; [done|]. intros z Hz. by apply Hext, list_elem_of_further.
Qed.

Lemma stable_sort_ext {A} (lt1 lt2 : A → A → bool) l :
  (∀ x y, x ∈ l → y ∈ l → lt1 x y = lt2 x y) →
  stable_sort lt1 l = stable_sort lt2 l.
Proof.
  induction l as [|x l IH]; intros Hext; simpl; [done|].
  rewrite IH by (intros; by apply Hext; apply list_elem_of_further).
  apply sort_insert_ext. intros y Hy. rewrite stable_sort_perm in Hy.
  apply Hext; [by apply list_elem_of_further | apply list_elem_of_here].
Qed.

Lemma ltb_irrefl s : String.ltb s s = false.
Proof.
  unfold String.ltb. pose proof (String.compare_antisym s s) as H.
  by destruct (String.compare s s).
Qed.

Lemma ltb_asym s t : String.ltb s t = true → String.ltb t s = false.
Proof.
  unfold String.ltb. rewrite (String.compare_antisym t s).
  by destruct (String.compare s t).
Qed.

(** On timestamps that sort before ["Z"], the key [ts or "Z"] orders the
    events as [ts] with the absent ones last. *)
Lemma sort_key_order x y :
  ts_before_absent x = true → ts_before_absent y = true →
  String.ltb (sort_key x) (sort_key y) = ShrinkSpec.ts_lt (ts x) (ts y).
Proof.
  unfold ts_before_absent, sort_key, ShrinkSpec.ts_lt.
  destruct (ts x) as [[|a s]|], (ts y) as [[|b t]|]; simpl; try done.
  intros _ Hy. by apply ltb_asym.
Qed.

(** C3, for an even [max_items] that is not negative and timestamps that
    sort before ["Z"]: on a log longer than [max_items], [shrink_events] is
    the reference computation. *)
Theorem shrink_events_refines events max_items :
  0 ≤ max_items →
  Z.even max_items = true →
  max_items < Z.of_nat (length events) →
  Forall (λ e, ts_before_absent e = true) events →
  shrink_events events max_items = ShrinkSpec.shrink events max_items.
Proof.
  intros Hm Heven Hlen Hts.
  rewrite shrink_events_long by done.
  unfold ShrinkSpec.shrink, ShrinkSpec.first_n.
  rewrite slice_to_take by done.
  destruct (decide (max_items = 0)) as [->|Hpos]; [done|].
  apply Z.even_spec in Heven as [k ->].
  assert (unique_sample events (2 * k)
          = ShrinkSpec.dedup_first
              (take (Z.to_nat (2 * k / 2)) events
                 ++ filter (λ e, is_protected e) events
                 ++ ShrinkSpec.last_n (Z.to_nat (2 * k / 2)) events)) as ->.
  { unfold unique_sample, merged_sample.
    rewrite dedup_loop_dedup_first, slice_to_take by (apply Z.div_pos; lia).
    replace (- (2 * k)) with (- k * 2) by lia.
    replace (2 * k) with (k * 2) by lia.
    rewrite !Z.div_mul by lia.
    by rewrite slice_from_last by lia. }
  f_equal. unfold sort_by. apply stable_sort_ext.
  set (merged := _ ++ _ ++ _).
  assert (∀ x, x ∈ ShrinkSpec.dedup_first merged → x ∈ events) as Hsub.
  { intros x Hx. rewrite <- dedup_loop_dedup_first in Hx.
    apply dedup_loop_elem in Hx as [Hx|Hx]; [by apply elem_of_nil in Hx|].
    unfold merged in Hx. rewrite !elem_of_app in Hx.
    destruct Hx as [Hx|[Hx|Hx]].
    - by apply subseteq_take in Hx.
    - by apply list_elem_of_filter in Hx as [_ ?].
    - by apply subseteq_drop in Hx. }
  rewrite Forall_forall in Hts.
  intros x y Hx%Hsub%Hts Hy%Hsub%Hts. by apply sort_key_order.
Qed.

Lemma shrink_events_refines_witness :
  shrink_events five_kills 4 = ShrinkSpec.shrink five_kills 4.
Proof.
  apply shrink_events_refines; [lia | reflexivity | simpl; lia |].
  unfold five_kills. repeat constructor.
Defined.

(** C3 as stated fails in three ways.  For an odd [max_items] the tail
    [events[-max_items//2:]] is [events[(-max_items)//2:]], one event more
    than [max_items/2]: the last two for [max_items = 3].  A [ts] that
    sorts after ["Z"] is placed after the absent ones.  A negative
    [max_items] slices from the other end. *)
Lemma shrink_events_departs_from_reference :
  (shrink_events five_kills 3
   = [sample_event "2024-01-01T10:00:01" "kill";
      sample_event "2024-01-01T10:00:04" "kill";
      sample_event "2024-01-01T10:00:05" "kill"]
   ∧ ShrinkSpec.shrink five_kills 3
     = [sample_event "2024-01-01T10:00:01" "kill";
        sample_event "2024-01-01T10:00:05" "kill"])
  ∧ shrink_events late_ts 2 ≠ ShrinkSpec.shrink late_ts 2
  ∧ shrink_events five_kills (-2) ≠ ShrinkSpec.shrink five_kills (-2).
Proof.
  split; [split; vm_compute; reflexivity|].
  split; vm_compute; discriminate.
Qed.

(** *** Protected events *)

Lemma dedup_first_keys_NoDup l : NoDup (event_key <$> ShrinkSpec.dedup_first l).
Proof.
  induction l as [|e r IH]; simpl; [constructor|].
  apply NoDup_cons. split.
  - intros (x & Hk & [Hx _]%list_elem_of_filter)%list_elem_of_fmap. congruence.
  - eapply sublist_NoDup; [exact IH|]. apply fmap_sublist, sublist_filter.
Qed.

Lemma unique_sample_keys_NoDup events max_items :
  NoDup (event_key <$> unique_sample events max_items).
Proof.
  unfold unique_sample. rewrite dedup_loop_dedup_first.
  apply dedup_first_keys_NoDup.
Qed.

Lemma unique_sample_subseteq events max_items e :
  e ∈ unique_sample events max_items → e ∈ events.
Proof.
  unfold unique_sample, merged_sample.
  intros [He|He]%dedup_loop_elem; [by apply elem_of_nil in He|].
  rewrite !elem_of_app in He. destruct He as [He|[He|He]].
  - by apply slice_to_subseteq in He.
  - by apply list_elem_of_filter in He as [_ ?].
  - by apply slice_from_subseteq in He.
Qed.

Lemma NoDup_fmap_eq {A B} (f : A → B) (l : list A) x y :
  NoDup (f <$> l) → x ∈ l → y ∈ l → f x = f y → x = y.
Proof.
  intros Hnd [i Hi]%list_elem_of_lookup [j Hj]%list_elem_of_lookup Hf.
  assert (i = j) as ->; [|congruence].
  apply (NoDup_lookup (f <$> l) i j (f x)); [done|..].
  - by rewrite list_lookup_fmap, Hi.
  - by rewrite list_lookup_fmap, Hj, Hf.
Qed.

Lemma elem_of_take_NoDup {A} (l : list A) n i x :
  NoDup l → l !! i = Some x → x ∈ take n l ↔ (i < n)%nat.
Proof.
  intros Hnd Hi. split.
  - intros [j Hj]%list_elem_of_lookup.
    apply lookup_take_Some in Hj as [Hj Hlt].
    by rewrite (NoDup_lookup l i j x Hnd Hi Hj).
  - intros Hlt. apply list_elem_of_lookup. exists i.
    apply lookup_take_Some. done.
Qed.

(** C2, with the truncation taken into account.  A protected event of a
    log that is not longer than [max_items] is in the output.  On a longer
    log the sorted sample (the list that [uniq[:max_items]] cuts) holds
    one event with its de-duplication key, at some position; that event is
    the protected event itself when no two events of the log share a key,
    and it is in the output exactly when its position is below the cut. *)
Theorem shrink_events_keeps_protected events max_items e :
  e ∈ events →
  is_protected e = true →
  (Z.of_nat (length events) ≤ max_items → e ∈ shrink_events events max_items)
  ∧ (max_items < Z.of_nat (length events) →
     ∃ e' i,
       sort_by sort_key (unique_sample events max_items) !! i = Some e'
       ∧ event_key e' = event_key e
       ∧ (NoDup (event_key <$> events) → e' = e)
       ∧ (e' ∈ shrink_events events max_items
          ↔ (i < Py.adjust (length (unique_sample events max_items)) max_items)%nat)).
Proof.
  intros He Hp. split.
  { intros Hs. by rewrite shrink_events_short. }
  intros Hl.
  destruct (dedup_loop_covers (merged_sample events max_items) ∅ [] e)
    as (e' & He' & Hk).
  { intros k. split; [set_solver|]. intros (x & Hx & _). by apply elem_of_nil in Hx. }
  { right. unfold merged_sample. rewrite !elem_of_app. right; left.
    apply list_elem_of_filter. split; [by rewrite Hp | done]. }
  fold (unique_sample events max_items) in He'.
  assert (sort_by sort_key (unique_sample events max_items)
          ≡ₚ unique_sample events max_items) as Hperm
    by apply stable_sort_perm.
  assert (e' ∈ sort_by sort_key (unique_sample events max_items)) as Hin
    by by rewrite Hperm.
  apply list_elem_of_lookup in Hin as [i Hi].
  exists e', i. split; [done|]. split; [done|]. split.
  - intros Hnd. apply (NoDup_fmap_eq event_key events); [done| |done..].
    by apply (unique_sample_subseteq events max_items).
  - rewrite shrink_events_long by done. unfold Py.slice_to.
    rewrite (Permutation_length Hperm).
    apply elem_of_take_NoDup; [|done].
    rewrite Hperm. eapply NoDup_fmap_1, unique_sample_keys_NoDup.
Qed.

Lemma shrink_events_keeps_protected_witness :
  let e := sample_event "2024-01-01T10:00:03" "plant" in
  (Z.of_nat (length plant_in_middle) ≤ 4 → e ∈ shrink_events plant_in_middle 4)
  ∧ (4 < Z.of_nat (length plant_in_middle) →
     ∃ e' i,
       sort_by sort_key (unique_sample plant_in_middle 4) !! i = Some e'
       ∧ event_key e' = event_key e
       ∧ (NoDup (event_key <$> plant_in_middle) → e' = e)
       ∧ (e' ∈ shrink_events plant_in_middle 4
          ↔ (i < Py.adjust (length (unique_sample plant_in_middle 4)) 4)%nat)).
Proof.
  apply shrink_events_keeps_protected.
  - unfold plant_in_middle. set_solver.
  - reflexivity.
Defined.

(** Five events with different keys, a plant outside the head and the tail,
    and [max_items = 4]: the sample has five events, the plant is the third
    of the sorted sample and stays. *)
Example shrink_events_plant_in_middle :
  length (unique_sample plant_in_middle 4) = 5%nat
  ∧ shrink_events plant_in_middle 4
    = [sample_event "2024-01-01T10:00:01" "kill";
       sample_event "2024-01-01T10:00:02" "kill";
       sample_event "2024-01-01T10:00:03" "plant";
       sample_event "2024-01-01T10:00:04" "kill"].
Proof. split; vm_compute; reflexivity. Qed.

(** C2 as stated fails: three protected events and [max_items = 2]; the
    truncation drops the third one. *)
Lemma shrink_events_drops_protected :
  let e := sample_event "2024-01-01T10:00:03" "plant" in
  e ∈ three_plants ∧ is_protected e = true ∧ e ∉ shrink_events three_plants 2.
Proof.
  split; [unfold three_plants; set_solver|]. split; [reflexivity|].
  assert (shrink_events three_plants 2
          = [sample_event "2024-01-01T10:00:01" "plant";
             sample_event "2024-01-01T10:00:02" "plant"]) as ->
    by (vm_compute; reflexivity).
  rewrite !elem_of_cons, elem_of_nil.
  intros [H|[H|[]]]; discriminate H.
Qed.

(** ** Text *)

Lemma append_cons c (s t : string) : String c s +:+ t = String c (s +:+ t).
Proof. reflexivity. Qed.

Lemma append_nil_l (s : string) : EmptyString +:+ s = s.
Proof. reflexivity. Qed.

Lemma append_assoc (s1 s2 s3 : string) : (s1 +:+ s2) +:+ s3 = s1 +:+ s2 +:+ s3.
Proof.
  induction s1 as [|c s1 IH]; [done|].
  by rewrite !append_cons, IH.
Qed.

Lemma append_nil_r (s : string) : s +:+ EmptyString = s.
Proof.
  induction s as [|c s IH]; [done|].
  by rewrite append_cons, IH.
Qed.

Lemma only_closers_app s1 s2 :
  only_closers (s1 +:+ s2) = only_closers s1 && only_closers s2.
Proof.
  induction s1 as [|c s1 IH]; [done|].
  rewrite append_cons. simpl. rewrite IH. by rewrite andb_assoc.
Qed.

Lemma repeat_char_copies c (n : Z) :
  repeat_char c n = RepairSpec.copies (Z.to_nat n) c.
Proof.
  unfold repeat_char. induction (Z.to_nat n) as [|k IH]; simpl; [done | by rewrite IH].
Qed.

Lemma only_closers_copies n c :
  c = "]"%char ∨ c = "}"%char → only_closers (RepairSpec.copies n c) = true.
Proof.
  intros Hc. induction n as [|n IH]; simpl; [done|].
  rewrite IH. by destruct Hc as [-> | ->].
Qed.

Lemma odd_count_mod (n : nat) : (Z.of_nat n mod 2 =? 1) = Nat.odd n.
Proof.
  destruct (Nat.odd n) eqn:Hodd.
  - apply Nat.odd_spec in Hodd as [k ->]. apply Z.eqb_eq.
    replace (Z.of_nat (2 * k + 1)) with (1 + Z.of_nat k * 2) by lia.
    by rewrite Z.mod_add.
  - apply (f_equal negb) in Hodd. rewrite Nat.negb_odd in Hodd. simpl in Hodd.
    apply Nat.even_spec in Hodd as [k ->]. apply Z.eqb_neq.
    replace (Z.of_nat (2 * k)) with (0 + Z.of_nat k * 2) by lia.
    by rewrite Z.mod_add.
Qed.

Lemma balance_missing (a b : nat) :
  Z.to_nat (Z.max 0 (Z.of_nat a - Z.of_nat b)) = (a - b)%nat.
Proof. lia. Qed.

(** ** JSONRepairer *)

Section RepairFacts.
Variable loads : string → option json.

(** C4: on the extracted, stripped fragment, [naive_json_repair] is the
    repair of the design document: a closing quote for an odd count of
    quotes, the two balances taken on the fragment so completed, brackets
    then braces first, braces then brackets next, failure otherwise. *)
Theorem naive_json_repair_refines (trunc : string) :
  loads EmptyString = None →
  naive_json_repair loads trunc
  = RepairSpec.repair loads (strip (extract_top_level_json trunc)).
Proof.
  intros Hempty. unfold naive_json_repair, RepairSpec.repair.
  unfold RepairSpec.odd_count, RepairSpec.missing.
  destruct (strip (extract_top_level_json trunc)) as [|c cand] eqn:Hc.
  { cbv. by rewrite Hempty. }
  rewrite odd_count_mod.
  rewrite !repeat_char_copies, !balance_missing.
  reflexivity.
Qed.

(** C9: a successful result of [naive_json_repair] is the parse of the
    extracted, stripped fragment followed by at most one double quote and
    then closing brackets and braces only. *)
Theorem naive_json_repair_appends (trunc : string) (v : json) :
  naive_json_repair loads trunc = v →
  v ≠ JNull →
  ∃ quote closers,
    (quote = EmptyString ∨ quote = dq)
    ∧ only_closers closers = true
    ∧ loads (strip (extract_top_level_json trunc) +:+ quote +:+ closers)
      = Some v.
Proof.
  unfold naive_json_repair.
  destruct (strip (extract_top_level_json trunc)) as [|c cand] eqn:Hc.
  { intros <- Hv. done. }
  set (quote := if Z.of_nat (count_char "034" (String c cand)) mod 2 =? 1
                then dq else EmptyString).
  assert ((if Z.of_nat (count_char "034" (String c cand)) mod 2 =? 1
           then String c cand +:+ String "034" EmptyString else String c cand)
          = String c cand +:+ quote) as ->.
  { unfold quote. destruct (_ =? 1); [done | by rewrite append_nil_r]. }
  assert (quote = EmptyString ∨ quote = dq) as Hq.
  { unfold quote. destruct (_ =? 1); auto. }
  rewrite !repeat_char_copies.
  set (nk := Z.to_nat _). set (nb := Z.to_nat _).
  destruct (loads (_ +:+ RepairSpec.copies nk _ +:+ _)) as [v1|] eqn:H1.
  { intros -> _. exists quote, (RepairSpec.copies nk "]" +:+ RepairSpec.copies nb "}").
    split; [done|]. split.
    - rewrite only_closers_app, !only_closers_copies; auto.
    - by rewrite <- append_assoc. }
  destruct (loads (_ +:+ RepairSpec.copies nb _ +:+ _)) as [v2|] eqn:H2.
  { intros -> _. exists quote, (RepairSpec.copies nb "}" +:+ RepairSpec.copies nk "]").
    split; [done|]. split.
    - rewrite only_closers_app, !only_closers_copies; auto.
    - by rewrite <- append_assoc. }
  intros <- Hv. done.
Qed.
End RepairFacts.

Lemma naive_json_repair_refines_witness :
  naive_json_repair json_loads truncated_wrapper
  = RepairSpec.repair json_loads (strip (extract_top_level_json truncated_wrapper)).
Proof. apply naive_json_repair_refines. reflexivity. Defined.

Lemma naive_json_repair_appends_witness :
  ∃ quote closers,
    (quote = EmptyString ∨ quote = dq)
    ∧ only_closers closers = true
    ∧ json_loads (strip (extract_top_level_json truncated_wrapper) +:+ quote +:+ closers)
      = Some (JObj [("json", JObj [("story", JArr [JInt 1; JInt 2]);
                                   ("n", JStr "ab")])]).
Proof.
  apply (naive_json_repair_appends json_loads truncated_wrapper).
  - vm_compute. reflexivity.
  - discriminate.
Defined.

(** ** CandidateScorer and RecoveryOrchestrator *)

Lemma wrap_if_needed_json_key obj :
  has_json_key (wrap_if_needed obj) = has_json_key obj || has_report_fields obj.
Proof.
  destruct obj as [| | | | | |d]; try reflexivity.
  unfold wrap_if_needed, has_report_fields.
  destruct (forallb (λ k, dict_has k d) expected);
    unfold has_json_key; destruct (dict_has "json" d) eqn:Hj; simpl;
    by rewrite ?Hj.
Qed.

Lemma wrap_if_needed_wraps obj :
  has_json_key obj = false → has_report_fields obj = true →
  wrap_if_needed obj = JObj [("json", obj)].
Proof.
  destruct obj as [| | | | | |d]; try discriminate.
  unfold wrap_if_needed, has_report_fields, has_json_key.
  by intros -> ->.
Qed.

Lemma fold_score_ge (r : list (string * json)) (keys : list string) (z : Z) :
  z ≤ fold_left (λ score k, if dict_has k r then score + 1 else score) keys z.
Proof.
  revert z. induction keys as [|k keys IH]; intros z; simpl; [lia|].
  etrans; [|apply IH]. destruct (dict_has k r); lia.
Qed.

Lemma candidate_score_nonneg obj : 0 ≤ candidate_score obj.
Proof.
  unfold candidate_score.
  assert (0 ≤ (if has_json_key obj then 0 + 2 else 0)) as H0
    by (destruct (has_json_key obj); lia).
  destruct (match obj with JObj d => _ | _ => _ end); try done.
  etrans; [exact H0 | apply fold_score_ge].
Qed.

Section LadderFacts.
Variable loads : string → option json.

(** C1, as the ladder is written: a parse that succeeds at stage 1 or at
    stage 2 ends the escalation with its normalised value, with or without
    a json key; that value has the key exactly when the parsed value has
    it or has the four report fields, and in the second case the parsed
    object is what sits under the key. *)
Theorem try_parse_or_coerce_first_parse (raw_text : string) (obj : json) :
  loads raw_text = Some obj
    ∨ (loads raw_text = None
       ∧ loads (extract_top_level_json raw_text) = Some obj) →
  try_parse_or_coerce loads raw_text = wrap_if_needed obj
  ∧ has_json_key (try_parse_or_coerce loads raw_text)
    = has_json_key obj || has_report_fields obj
  ∧ (has_json_key obj = false → has_report_fields obj = true →
     try_parse_or_coerce loads raw_text = JObj [("json", obj)]).
Proof.
  intros Hparse.
  assert (try_parse_or_coerce loads raw_text = wrap_if_needed obj) as Heq.
  { unfold try_parse_or_coerce.
    destruct Hparse as [-> | [-> ->]]; reflexivity. }
  rewrite Heq. split; [done|]. split.
  - apply wrap_if_needed_json_key.
  - apply wrap_if_needed_wraps.
Qed.

(** The loop of stage 3 either keeps the best it started with, no parsed
    candidate scoring more, or ends on a parsed candidate that scores more
    than all before it and at least as much as all after it. *)
Lemma score_loop_spec cands best best_score :
  let res := score_loop loads cands best best_score in
  (res = (best, best_score)
   ∧ Forall (λ y, candidate_score y ≤ best_score) (parsed_candidates loads cands))
  ∨ (∃ pre post,
       parsed_candidates loads cands = pre ++ res.1 :: post
       ∧ res.2 = candidate_score res.1
       ∧ best_score < candidate_score res.1
       ∧ Forall (λ y, candidate_score y < candidate_score res.1) pre
       ∧ Forall (λ y, candidate_score y ≤ candidate_score res.1) post).
Proof.
  revert best best_score.
  induction cands as [|cand rest IH]; intros best best_score; simpl.
  { left. split; [done | constructor]. }
  unfold parsed_candidates in *. simpl.
  destruct (loads cand) as [obj|]; simpl; [|apply IH].
  set (o := wrap_if_needed obj).
  destruct (Z.ltb_spec best_score (candidate_score o)) as [Hlt|Hge].
  - right. destruct (IH o (candidate_score o)) as [[-> Hall]|Hex].
    + exists [], (omap (λ c, wrap_if_needed <$> loads c) rest). simpl.
      repeat split; [done | constructor | done].
    + destruct Hex as (pre & post & Hp & Hs & Hb & Hpre & Hpost).
      exists (o :: pre), post. rewrite Hp. simpl.
      repeat split; [done | lia | | done].
      constructor; [lia | done].
  - destruct (IH best best_score) as [[-> Hall]|Hex].
    + left. split; [done|]. constructor; [lia | done].
    + right. destruct Hex as (pre & post & Hp & Hs & Hb & Hpre & Hpost).
      exists (o :: pre), post. rewrite Hp. simpl.
      repeat split; [done | lia | | done].
      constructor; [lia | done].
Qed.

(** C6, as stage 3 is written: the loop leaves no best only when no
    candidate parses, and otherwise the first parsed candidate that
    attains the maximum score; the stage returns that best when it is
    truthy, and falls through when it is an empty object. *)
Theorem score_and_pick_first_maximum (cands : list string) :
  let best := pick_best loads cands in
  match parsed_candidates loads cands with
  | [] => best = JNull
  | _ :: _ =>
      ∃ pre post,
        parsed_candidates loads cands = pre ++ best :: post
        ∧ Forall (λ y, candidate_score y < candidate_score best) pre
        ∧ Forall (λ y, candidate_score y ≤ candidate_score best) post
  end
  ∧ score_and_pick loads cands = (if py_truthy best then Some best else None).
Proof.
  intros best. split; [|reflexivity].
  unfold best, pick_best.
  destruct (score_loop_spec cands JNull (-1)) as [[Heq Hall]|Hex].
  - rewrite Heq. simpl.
    destruct (parsed_candidates loads cands) as [|y ys]; [done|].
    apply Forall_cons_1 in Hall as [Hy _].
    pose proof (candidate_score_nonneg y). lia.
  - destruct Hex as (pre & post & Hp & _ & _ & Hpre & Hpost).
    destruct (parsed_candidates loads cands) as [|y ys] eqn:Hparsed.
    + by destruct pre.
    + by exists pre, post.
Qed.
End LadderFacts.

Lemma try_parse_or_coerce_first_parse_witness :
  try_parse_or_coerce json_loads plain_object = wrap_if_needed (JObj [("a", JInt 1)])
  ∧ has_json_key (try_parse_or_coerce json_loads plain_object)
    = has_json_key (JObj [("a", JInt 1)]) || has_report_fields (JObj [("a", JInt 1)])
  ∧ (has_json_key (JObj [("a", JInt 1)]) = false →
     has_report_fields (JObj [("a", JInt 1)]) = true →
     try_parse_or_coerce json_loads plain_object
     = JObj [("json", JObj [("a", JInt 1)])]).
Proof.
  apply try_parse_or_coerce_first_parse. left. vm_compute. reflexivity.
Defined.

(** C1 as stated fails: the direct parse of an object without the key ends
    the ladder at stage 1, and a number under the key is returned too. *)
Lemma try_parse_or_coerce_returns_unwrapped :
  try_parse_or_coerce json_loads plain_object = JObj [("a", JInt 1)]
  ∧ try_parse_or_coerce json_loads plain_object ≠ JNull
  ∧ has_json_key (try_parse_or_coerce json_loads plain_object) = false
  ∧ try_parse_or_coerce json_loads json_number = JObj [("json", JInt 1)].
Proof.
  assert (try_parse_or_coerce json_loads plain_object = JObj [("a", JInt 1)])
    as -> by (vm_compute; reflexivity).
  split; [reflexivity|]. split; [discriminate|].
  split; vm_compute; reflexivity.
Qed.

(** C6 as stated fails: the candidate of an empty object parses, is the
    best of the loop, and the stage returns nothing; the ladder then ends
    on the repair of the first block. *)
Lemma score_and_pick_empty_object :
  find_all_top_level_json "{a} {}" = ["{a}"; "{}"]
  ∧ json_loads "{}" = Some (JObj [])
  ∧ pick_best json_loads ["{a}"; "{}"] = JObj []
  ∧ score_and_pick json_loads ["{a}"; "{}"] = None
  ∧ try_parse_or_coerce json_loads "{a} {}" = JNull.
Proof. repeat split; vm_compute; reflexivity. Qed.

(** ** ModelCaller *)

Section CallFacts.
Import ModelCaller.
Variable backend : nat → string → response.

Lemma requested_snoc_request trace m :
  requested (trace ++ [Request m]) = requested trace ++ [m].
Proof. unfold requested. by rewrite omap_app. Qed.

Lemma requested_snoc_sleep trace d :
  requested (trace ++ [Sleep d]) = requested trace.
Proof. unfold requested. rewrite omap_app. simpl. by rewrite app_nil_r. Qed.

Lemma tier_flash : tier flash = 0%nat.
Proof. reflexivity. Qed.

Lemma tier_le_1 m : (tier m ≤ 1)%nat.
Proof. unfold tier. destruct (is_pro m); lia. Qed.

(** The models requested by the loop from a state [curr_model]: the
    current model first, then the current model or flash, the tier never
    going up. *)
Lemma retry_loop_requests fuel max_retries attempt curr_model trace :
  ∃ ms,
    requested (retry_loop backend fuel max_retries attempt curr_model trace).2
    = requested trace ++ ms
    ∧ (ms = [] ∨ ∃ rest, ms = curr_model :: rest)
    ∧ Forall (λ m, m = curr_model ∨ m = flash) ms
    ∧ StronglySorted (λ a b, (tier b ≤ tier a)%nat) ms.
Proof.
  revert attempt curr_model trace.
  induction fuel as [|fuel IH]; intros attempt curr_model trace; simpl.
  { exists []. rewrite app_nil_r. repeat split; [by left | constructor..]. }
  assert (∃ ms, requested (trace ++ [Request curr_model]) = requested trace ++ ms
                ∧ (ms = [] ∨ ∃ rest, ms = curr_model :: rest)
                ∧ Forall (λ m, m = curr_model ∨ m = flash) ms
                ∧ StronglySorted (λ a b, (tier b ≤ tier a)%nat) ms) as Hone.
  { exists [curr_model]. rewrite requested_snoc_request.
    repeat split; [right; by exists [] | |]; repeat constructor. }
  assert (∀ next tr,
    requested tr = requested trace ++ [curr_model] →
    next = curr_model ∨ (is_pro curr_model = true ∧ next = flash) →
    ∃ ms,
      requested (retry_loop backend fuel max_retries (attempt + 1) next tr).2
      = requested trace ++ ms
      ∧ (ms = [] ∨ ∃ rest, ms = curr_model :: rest)
      ∧ Forall (λ m, m = curr_model ∨ m = flash) ms
      ∧ StronglySorted (λ a b, (tier b ≤ tier a)%nat) ms) as Hstep.
  { intros next tr Htr Hnext.
    destruct (IH (attempt + 1) next tr) as (ms & Hms & _ & Hall & Hsorted).
    exists (curr_model :: ms). rewrite Hms, Htr, <- app_assoc. simpl.
    assert (Forall (λ m, m = curr_model ∨ m = flash) ms) as Hall'.
    { eapply Forall_impl; [exact Hall|]. simpl.
      intros m [-> | ->]; [|by right]. destruct Hnext as [-> | [_ ->]]; auto. }
    repeat split; [right; by exists ms | constructor; [by left | done] |].
    constructor; [done|].
    eapply Forall_impl; [exact Hall|]. simpl. intros m Hm.
    destruct Hnext as [-> | [Hpro ->]].
    - destruct Hm as [-> | ->]; [done|]. rewrite tier_flash. lia.
    - unfold tier at 2. rewrite Hpro. apply tier_le_1. }
  destruct (attempt <=? max_retries).
  2: { exists []. rewrite app_nil_r. repeat split; [by left | constructor..]. }
  destruct (backend (Z.to_nat attempt) curr_model) as [text| |delay|].
  - exact Hone.
  - destruct (is_pro curr_model) eqn:Hpro; [|exact Hone].
    apply Hstep; [apply requested_snoc_request | by right].
  - match goal with |- context [if ?c <? 0 then _ else _] => destruct (c <? 0) end;
      [exact Hone|].
    apply Hstep.
    + by rewrite requested_snoc_sleep, requested_snoc_request.
    + destruct (is_pro curr_model); [by right | by left].
  - destruct (is_pro curr_model) eqn:Hpro; [|exact Hone].
    apply Hstep; [apply requested_snoc_request | by right].
Qed.

(** The loop never runs out of its iteration bound. *)
Lemma retry_loop_bounded fuel max_retries attempt curr_model trace :
  Z.max 0 (max_retries + 1 - attempt) < Z.of_nat fuel →
  (retry_loop backend fuel max_retries attempt curr_model trace).1 ≠ OutOfFuel.
Proof.
  revert attempt curr_model trace.
  induction fuel as [|fuel IH]; intros attempt curr_model trace Hfuel; [lia|].
  simpl. destruct (Z.leb_spec attempt max_retries); [|discriminate].
  destruct (backend (Z.to_nat attempt) curr_model) as [text| |delay|];
    [discriminate | | |].
  - destruct (is_pro curr_model); [apply IH; lia | discriminate].
  - match goal with |- context [if ?c <? 0 then _ else _] => destruct (c <? 0) end;
      [discriminate | apply IH; lia].
  - destruct (is_pro curr_model); [apply IH; lia | discriminate].
Qed.

Lemma call_terminates model_name max_retries :
  (call_gemini_json_with_retry backend model_name max_retries).1 ≠ OutOfFuel.
Proof. apply retry_loop_bounded. lia. Qed.

(** When at least one attempt is allowed, the first effect is a request
    to the model the caller named. *)
Lemma call_first_request model_name max_retries :
  0 ≤ max_retries →
  ∃ rest,
    requested (call_gemini_json_with_retry backend model_name max_retries).2
    = model_name :: rest.
Proof.
  intros Hm. unfold call_gemini_json_with_retry.
  set (fuel := Z.to_nat (max_retries + 1)).
  simpl. destruct (Z.leb_spec 0 max_retries); [|lia].
  assert (∀ next tr, requested tr = [model_name] →
    ∃ rest, requested (retry_loop backend fuel max_retries (0 + 1) next tr).2
            = model_name :: rest) as Hstep.
  { intros next tr Htr.
    destruct (retry_loop_requests fuel max_retries (0 + 1) next tr)
      as (ms & -> & _). rewrite Htr. by exists ms. }
  destruct (backend (Z.to_nat 0) model_name) as [text| |delay|].
  - by exists [].
  - destruct (is_pro model_name); [by apply Hstep | by exists []].
  - match goal with |- context [if ?c <? 0 then _ else _] => destruct (c <? 0) end;
      [by exists [] | by apply Hstep].
  - destruct (is_pro model_name); [by apply Hstep | by exists []].
Qed.

(** C5: within one call, the requests use the caller's model first and
    then that model or flash, and the tier never goes up from one
    request to a later one: after a request to a model that is not pro,
    no request is made to a pro model. *)
Theorem call_model_tier_monotone (model_name : string) (max_retries : Z) :
  let ms :=
    requested (call_gemini_json_with_retry backend model_name max_retries).2 in
  (if bool_decide (0 ≤ max_retries)
   then ∃ rest, ms = model_name :: rest
   else ms = [])
  ∧ Forall (λ m, m = model_name ∨ m = flash) ms
  ∧ StronglySorted (λ earlier later, (tier later ≤ tier earlier)%nat) ms.
Proof.
  intros ms. unfold ms.
  split.
  - case_bool_decide as Hm; [by apply call_first_request|].
    unfold call_gemini_json_with_retry. simpl.
    destruct (Z.leb_spec 0 max_retries); [lia | done].
  - unfold call_gemini_json_with_retry.
    destruct (retry_loop_requests (S (Z.to_nat (max_retries + 1))) max_retries 0
                model_name []) as (l & -> & _ & Hall & Hsorted).
    done.
Qed.
End CallFacts.

(** Scenario D of the design document: on the pro model a first request
    over quota with a suggested delay of five seconds is followed by a sleep
    of five seconds and a request to flash, whose text is returned. *)
Example call_quota_then_text :
  ModelCaller.call_gemini_json_with_retry quota_then_text "gemini-1.5-pro" 2
  = (ModelCaller.Return "{}",
     [ModelCaller.Request "gemini-1.5-pro"; ModelCaller.Sleep 5;
      ModelCaller.Request ModelCaller.flash]).
Proof. vm_compute. reflexivity. Qed.

(** ** ResponseExtractor: the scan of [find_all_top_level_json] *)

Lemma length_append (s t : string) :
  String.length (s +:+ t) = (String.length s + String.length t)%nat.
Proof.
  induction s as [|c s IH]; [done|].
  rewrite append_cons. simpl. by rewrite IH.
Qed.

Lemma append_snoc (pre : string) c (rest : string) :
  pre +:+ String c rest = (pre +:+ String c EmptyString) +:+ rest.
Proof. by rewrite append_assoc. Qed.

Lemma length_snoc (pre : string) c :
  String.length (pre +:+ String c EmptyString) = S (String.length pre).
Proof. rewrite length_append. simpl. lia. Qed.

Lemma prefix_length p s :
  String.prefix p s = true → (String.length p ≤ String.length s)%nat.
Proof.
  revert s. induction p as [|a p IH]; intros [|b s]; simpl; try lia; try done.
  destruct (ascii_dec a b); [|done]. intros H%IH. lia.
Qed.

(** A character that does not occur in [p] cannot complete a match of [p]. *)
Lemma prefix_app_inert p s c t :
  count_char c p = 0%nat →
  String.prefix p (s +:+ String c t) = String.prefix p s.
Proof.
  revert s. induction p as [|a p IH]; intros s Hc; [by destruct s|].
  simpl in Hc. destruct (Ascii.eqb_spec a c) as [->|Hne]; [done|].
  destruct s as [|b s]; [rewrite append_nil_l | rewrite append_cons]; simpl.
  - by destruct (ascii_dec a c).
  - destruct (ascii_dec a b); [by apply IH | done].
Qed.

Lemma prefix_no_brace p s :
  count_char "{" p = 0%nat → count_char "}" p = 0%nat →
  String.prefix p s = true → no_brace_upto (String.length p) s = true.
Proof.
  revert s. induction p as [|a p IH]; intros [|b s]; simpl; try done.
  destruct (ascii_dec a b) as [<-|]; [|done].
  destruct (Ascii.eqb a "{"); [done|]. destruct (Ascii.eqb a "}"); [done|].
  simpl. by apply IH.
Qed.

Section Removal.
Variable pats : list string.

Lemma remove_from_0_cons c s :
  remove_from pats 0 (String c s)
  = match List.find (λ p, String.prefix p (String c s)) pats with
    | Some p => remove_from pats (String.length p - 1) s
    | None => String c (remove_from pats 0 s)
    end.
Proof. reflexivity. Qed.

Lemma remove_from_S_cons k c s :
  remove_from pats (S k) (String c s) = remove_from pats k s.
Proof. reflexivity. Qed.

Lemma find_app_inert s c t :
  inert pats c →
  List.find (λ p, String.prefix p (s +:+ String c t)) pats
  = List.find (λ p, String.prefix p s) pats.
Proof.
  unfold inert. induction pats as [|p ps IH]; intros Hin; [done|].
  apply Forall_cons_1 in Hin as [[Hc _] Hps].
  cbn [List.find]. rewrite prefix_app_inert by done.
  destruct (String.prefix p s); [done | by apply IH].
Qed.

Lemma find_cons_inert c t :
  inert pats c → List.find (λ p, String.prefix p (String c t)) pats = None.
Proof.
  intros Hin. rewrite <- (append_nil_l (String c t)), find_app_inert by done.
  unfold inert in Hin. induction pats as [|p ps IH]; [done|].
  apply Forall_cons_1 in Hin as [[_ Hp] Hps]. cbn [List.find].
  destruct p; [done | by apply IH].
Qed.

Lemma find_prefix_true s p :
  List.find (λ p, String.prefix p s) pats = Some p →
  String.prefix p s = true.
Proof. intros H. by apply List.find_some in H as [_ ?]. Qed.

(** An inert character splits the removal in two. *)
Lemma remove_from_app_inert s k c t :
  inert pats c → (k ≤ String.length s)%nat →
  remove_from pats k (s +:+ String c t)
  = remove_from pats k s +:+ String c (remove_from pats 0 t).
Proof.
  intros Hin. revert k. induction s as [|d s IH]; intros k Hk.
  - simpl in Hk. replace k with 0%nat by lia.
    rewrite !append_nil_l, remove_from_0_cons.
    by rewrite find_cons_inert.
  - rewrite append_cons. simpl in Hk. destruct k as [|k].
    + rewrite !remove_from_0_cons, <- append_cons, find_app_inert by done.
      destruct (List.find _ pats) as [p|] eqn:Hfind.
      * apply IH. apply find_prefix_true, prefix_length in Hfind.
        simpl in Hfind. lia.
      * rewrite append_cons. f_equal. apply IH. lia.
    + rewrite !remove_from_S_cons. apply IH. lia.
Qed.

Lemma remove_from_cons_inert c t :
  inert pats c →
  remove_from pats 0 (String c t) = String c (remove_from pats 0 t).
Proof.
  intros Hin.
  rewrite <- (append_nil_l (String c t)), remove_from_app_inert; [done..|].
  simpl. lia.
Qed.

(** The removal does not touch the braces, so the depth counter reads the
    same. *)
Lemma scan_depth_remove_from s k depth :
  inert pats "{" → inert pats "}" →
  no_brace_upto k s = true →
  scan_depth (remove_from pats k s) depth = scan_depth s depth.
Proof.
  intros Hopen Hclose. revert k depth. induction s as [|d s IH]; intros k depth Hk.
  { by destruct k. }
  destruct k as [|k].
  - rewrite remove_from_0_cons.
    destruct (List.find _ pats) as [p|] eqn:Hfind.
    + pose proof Hfind as Hpre%find_prefix_true.
      apply List.find_some in Hfind as [Hp%list_elem_of_In _].
      unfold inert in Hopen, Hclose. rewrite Forall_forall in Hopen, Hclose.
      destruct (Hopen p Hp) as [Ho Hne]. destruct (Hclose p Hp) as [Hc _].
      pose proof (prefix_no_brace p _ Ho Hc Hpre) as Hnb.
      destruct p as [|a p]; [done|]. simpl in Hnb.
      change (scan_depth (String d s) depth) with
        (if Ascii.eqb d "{" then scan_depth s (depth + 1)
         else if Ascii.eqb d "}" then
           if 0 <? depth then scan_depth s (depth - 1) else scan_depth s depth
         else scan_depth s depth).
      destruct (Ascii.eqb d "{"); [done|]. destruct (Ascii.eqb d "}"); [done|].
      simpl in Hnb. simpl String.length.
      replace (S (String.length p) - 1)%nat with (String.length p) by lia.
      by apply IH.
    + simpl.
      destruct (Ascii.eqb d "{"); [by apply IH|].
      destruct (Ascii.eqb d "}"); [|by apply IH].
      destruct (0 <? depth); by apply IH.
  - simpl in Hk. rewrite remove_from_S_cons. simpl.
    destruct (Ascii.eqb d "{"); [done|]. destruct (Ascii.eqb d "}"); [done|].
    by apply IH.
Qed.
End Removal.

Lemma isspace_not_brace c :
  py_isspace c = true → Ascii.eqb c "{" = false ∧ Ascii.eqb c "}" = false.
Proof.
  intros H. split.
  - destruct (Ascii.eqb_spec c "{") as [->|]; [by vm_compute in H | done].
  - destruct (Ascii.eqb_spec c "}") as [->|]; [by vm_compute in H | done].
Qed.

Lemma isspace_fence_inert c : py_isspace c = true → fence_inert c = true.
Proof.
  intros H. unfold fence_inert.
  destruct (Ascii.eqb_spec c "`") as [->|]; [by vm_compute in H|].
  destruct (Ascii.eqb_spec c "j") as [->|]; [by vm_compute in H|].
  destruct (Ascii.eqb_spec c "s") as [->|]; [by vm_compute in H|].
  destruct (Ascii.eqb_spec c "o") as [->|]; [by vm_compute in H|].
  destruct (Ascii.eqb_spec c "n") as [->|]; [by vm_compute in H | done].
Qed.

Lemma fence_inert_patterns c :
  fence_inert c = true →
  inert [fence +:+ "json"; fence] c ∧ inert [fence] c.
Proof.
  unfold fence_inert. rewrite !andb_true_iff, !negb_true_iff.
  intros [[[[Hq Hj] Hs] Ho] Hn].
  rewrite Ascii.eqb_sym in Hq, Hj, Hs, Ho, Hn.
  assert (count_char c (fence +:+ "json") = 0%nat) as H1.
  { vm_compute (fence +:+ "json"). cbn [count_char]. by rewrite Hq, Hj, Hs, Ho, Hn. }
  assert (count_char c fence = 0%nat) as H2.
  { unfold fence. cbn [count_char]. by rewrite Hq. }
  unfold inert. by repeat constructor.
Qed.

Lemma clean_fences_app_inert s c t :
  fence_inert c = true →
  clean_fences (s +:+ String c t)
  = clean_fences s +:+ String c (clean_fences t).
Proof.
  intros [H1 H2]%fence_inert_patterns.
  unfold clean_fences, replace_fence, sub_fences.
  rewrite remove_from_app_inert by (done || lia).
  by rewrite remove_from_app_inert by (done || lia).
Qed.

Lemma clean_fences_cons_inert c t :
  fence_inert c = true →
  clean_fences (String c t) = String c (clean_fences t).
Proof.
  intros H.
  by rewrite <- (append_nil_l (String c t)), clean_fences_app_inert.
Qed.

Lemma clean_fences_leading w s :
  all_space w = true → clean_fences (w +:+ s) = w +:+ clean_fences s.
Proof.
  induction w as [|c w IH]; [done|]. simpl.
  intros [Hc Hw]%andb_true_iff.
  rewrite !append_cons, clean_fences_cons_inert by by apply isspace_fence_inert.
  by rewrite IH.
Qed.

Lemma clean_fences_blank w : all_space w = true → clean_fences w = w.
Proof.
  intros H. rewrite <- (append_nil_r w) at 1.
  rewrite clean_fences_leading by done. apply append_nil_r.
Qed.

Lemma clean_fences_trailing s w :
  all_space w = true → clean_fences (s +:+ w) = clean_fences s +:+ w.
Proof.
  destruct w as [|c w]; [by rewrite !append_nil_r|]. simpl.
  intros [Hc Hw]%andb_true_iff.
  rewrite clean_fences_app_inert by by apply isspace_fence_inert.
  by rewrite (clean_fences_blank w).
Qed.

Lemma scan_depth_clean_fences s depth :
  scan_depth (clean_fences s) depth = scan_depth s depth.
Proof.
  unfold clean_fences, replace_fence, sub_fences.
  rewrite !scan_depth_remove_from; [done | | | done | | | done];
    unfold inert; repeat constructor; done.
Qed.

Lemma lstrip_split s : ∃ w, all_space w = true ∧ s = w +:+ lstrip s.
Proof.
  induction s as [|c s (w & Hw & Hs)]; [by exists EmptyString|]. simpl.
  destruct (py_isspace c) eqn:Hc.
  - exists (String c w). simpl. rewrite Hc, Hw, append_cons. by rewrite <- Hs.
  - by exists EmptyString.
Qed.

Lemma rstrip_split s : ∃ w, all_space w = true ∧ s = rstrip s +:+ w.
Proof.
  induction s as [|c s (w & Hw & Hs)]; [by exists EmptyString|]. simpl.
  destruct (rstrip s) as [|d r].
  - rewrite append_nil_l in Hs. subst s.
    destruct (py_isspace c) eqn:Hc.
    + exists (String c w). simpl. by rewrite Hc, Hw.
    + by exists w.
  - exists w. split; [done|]. by rewrite append_cons, <- Hs.
Qed.

Lemma scan_depth_nonneg s depth : 0 ≤ depth → 0 ≤ scan_depth s depth.
Proof.
  revert depth. induction s as [|c s IH]; intros depth Hd; simpl; [done|].
  destruct (Ascii.eqb c "{"); [apply IH; lia|].
  destruct (Ascii.eqb c "}"); [|by apply IH].
  destruct (Z.ltb_spec 0 depth); apply IH; lia.
Qed.

Lemma scan_depth_app x y depth :
  scan_depth (x +:+ y) depth = scan_depth y (scan_depth x depth).
Proof.
  revert depth. induction x as [|c x IH]; intros depth; [done|].
  rewrite append_cons. simpl.
  destruct (Ascii.eqb c "{"); [apply IH|].
  destruct (Ascii.eqb c "}"); [|apply IH].
  destruct (0 <? depth); apply IH.
Qed.

(** [scan_depth] is the depth counter of the loop: after the loop has read
    [x], it goes on with the depth [scan_depth x depth]. *)
Lemma find_all_loop_depth s x y i depth start out :
  ∃ start' out',
    find_all_loop s (x +:+ y) i depth start out
    = find_all_loop s y (i + String.length x) (scan_depth x depth) start' out'.
Proof.
  revert i depth start out.
  induction x as [|c x IH]; intros i depth start out.
  { exists start, out. simpl. by rewrite Nat.add_0_r. }
  rewrite append_cons. simpl.
  replace (i + S (String.length x))%nat with (S i + String.length x)%nat by lia.
  destruct (Ascii.eqb c "{"); [apply IH|].
  destruct (Ascii.eqb c "}"); [|apply IH].
  destruct (0 <? depth); [|apply IH].
  destruct start as [st|]; [|apply IH].
  destruct (depth - 1 =? 0); apply IH.
Qed.

(** What is read after [x] is read from the state [x] leaves. *)
Lemma blocks_app x y depth cur :
  blocks (x +:+ y) depth cur
  = blocks x depth cur ++ blocks y (scan_depth x depth) (open_block x depth cur).
Proof.
  revert depth cur. induction x as [|c x IH]; intros depth cur; [done|].
  rewrite append_cons. simpl.
  destruct (Ascii.eqb c "{"); [apply IH|].
  destruct (Ascii.eqb c "}"); [|apply IH].
  destruct (0 <? depth); [|apply IH].
  destruct (depth - 1 =? 0); [|apply IH].
  simpl. f_equal. apply IH.
Qed.

(** At depth 0 no block is open. *)
Lemma open_block_closed x depth cur :
  0 ≤ depth → (depth = 0 → cur = EmptyString) →
  scan_depth x depth = 0 → open_block x depth cur = EmptyString.
Proof.
  revert depth cur. induction x as [|c x IH]; intros depth cur Hd Hcur; simpl.
  { done. }
  destruct (Ascii.eqb c "{"); [apply IH; lia|].
  destruct (Ascii.eqb c "}").
  - destruct (Z.ltb_spec 0 depth); [|by apply IH].
    destruct (Z.eqb_spec (depth - 1) 0); apply IH; lia || done.
  - destruct (Z.ltb_spec 0 depth); apply IH; lia || done.
Qed.

Lemma blocks_leading_blank w y :
  all_space w = true →
  blocks (w +:+ y) 0 EmptyString = blocks y 0 EmptyString.
Proof.
  induction w as [|c w IH]; [done|].
  intros H. simpl in H.
  apply andb_true_iff in H as [[Ho Hc]%isspace_not_brace Hw].
  rewrite append_cons. cbn [blocks]. rewrite Ho, Hc. by apply IH.
Qed.

Lemma blocks_blank w depth cur : all_space w = true → blocks w depth cur = [].
Proof.
  revert depth cur. induction w as [|c w IH]; intros depth cur; [done|].
  intros H. simpl in H.
  apply andb_true_iff in H as [[Ho Hc]%isspace_not_brace Hw].
  cbn [blocks]. rewrite Ho, Hc. by apply IH.
Qed.

Lemma str_drop_app st (pre r : string) :
  (st ≤ String.length pre)%nat → str_drop st (pre +:+ r) = str_drop st pre +:+ r.
Proof.
  revert st. induction pre as [|c pre IH]; intros st Hst; simpl in Hst.
  - by replace st with 0%nat by lia.
  - destruct st as [|st]; [done|]. rewrite append_cons. simpl. apply IH. lia.
Qed.

Lemma str_drop_all (pre : string) : str_drop (String.length pre) pre = EmptyString.
Proof. induction pre as [|c pre IH]; [done | by simpl]. Qed.

(** The slice [s[st:i+1]] when [i] is the index of [c]. *)
Lemma substring_block st (pre : string) c (r : string) :
  (st ≤ String.length pre)%nat →
  String.substring st (S (String.length pre) - st) (pre +:+ String c r)
  = str_drop st pre +:+ String c EmptyString.
Proof.
  revert st. induction pre as [|d pre IH]; intros st Hst; simpl in Hst.
  - replace st with 0%nat by lia. rewrite append_nil_l. simpl.
    by destruct r.
  - rewrite append_cons. destruct st as [|st].
    + simpl. rewrite append_cons. f_equal.
      specialize (IH 0%nat). rewrite Nat.sub_0_r in IH. apply IH. lia.
    + simpl. apply IH. lia.
Qed.

(** The loop with a start index computes the blocks: [pre] is what has been
    read, and [cur] is the slice from [start] when a block is open. *)
Lemma find_all_loop_blocks rest pre depth start cur out :
  (depth = 0 ∧ cur = EmptyString)
    ∨ (0 < depth ∧ ∃ st, start = Some st ∧ (st ≤ String.length pre)%nat
                         ∧ cur = str_drop st pre) →
  find_all_loop (pre +:+ rest) rest (String.length pre) depth start out
  = out ++ blocks rest depth cur.
Proof.
  revert pre depth start cur out.
  induction rest as [|ch rest IH]; intros pre depth start cur out Hinv; simpl.
  { by rewrite app_nil_r. }
  rewrite (append_snoc pre ch rest), <- (length_snoc pre ch).
  destruct (Ascii.eqb ch "{").
  { apply IH. right. split; [lia|].
    destruct Hinv as [[-> ->]|(Hd & st & -> & Hst & ->)].
    - exists (String.length pre). rewrite length_snoc. simpl.
      split; [done|]. split; [lia|].
      by rewrite str_drop_app, str_drop_all by lia.
    - destruct (Z.eqb_spec depth 0); [lia|].
      exists st. rewrite length_snoc. split; [done|]. split; [lia|].
      by rewrite str_drop_app by lia. }
  destruct (Ascii.eqb ch "}").
  - destruct (Z.ltb_spec 0 depth) as [Hpos|Hneg].
    + destruct Hinv as [[-> _]|(_ & st & -> & Hst & ->)]; [lia|].
      destruct (Z.eqb_spec (depth - 1) 0) as [Hz|Hnz].
      * rewrite IH with (cur := EmptyString) by (left; done).
        rewrite length_snoc, <- (append_snoc pre ch rest).
        rewrite substring_block by done.
        by rewrite <- app_assoc.
      * apply IH. right. split; [lia|]. exists st. rewrite length_snoc.
        split; [done|]. split; [lia|]. by rewrite str_drop_app by lia.
    + apply IH. destruct Hinv as [[-> ->]|[? _]]; [by left | lia].
  - apply IH. destruct Hinv as [[-> ->]|(Hd & st & -> & Hst & ->)].
    + by left.
    + right. split; [done|]. exists st. rewrite length_snoc.
      split; [done|]. split; [lia|].
      destruct (Z.ltb_spec 0 depth); [|lia]. by rewrite str_drop_app by lia.
Qed.

(** The candidates are the blocks of the cleaned text; stripping the ends
    first changes nothing. *)
Lemma find_all_top_level_json_blocks s :
  find_all_top_level_json s = blocks (clean_fences s) 0 EmptyString.
Proof.
  unfold find_all_top_level_json.
  change (replace_fence (sub_fences (strip s))) with (clean_fences (strip s)).
  rewrite <- (append_nil_l (clean_fences (strip s))) at 1.
  change 0%nat with (String.length EmptyString).
  rewrite find_all_loop_blocks with (cur := EmptyString) by (left; done).
  simpl.
  destruct (lstrip_split s) as (wl & Hwl & Hs).
  destruct (rstrip_split (lstrip s)) as (wr & Hwr & Hm).
  fold (strip s) in Hm.
  rewrite Hs at 2. rewrite Hm.
  rewrite clean_fences_leading, clean_fences_trailing by done.
  rewrite blocks_leading_blank, blocks_app by done.
  by rewrite (blocks_blank wr), app_nil_r.
Qed.

(** C10: the depth counter of [find_all_top_level_json] is never negative
    whatever the loop has read, and a closing brace inserted where the
    counter is 0 (between balanced blocks), not inside a fence marker (the
    fences of the two sides are removed separately), leaves the candidates
    unchanged. *)
Theorem find_all_ignores_unmatched_close (a b : string) :
  scan_depth a 0 = 0 →
  clean_fences (a +:+ b) = clean_fences a +:+ clean_fences b →
  find_all_top_level_json (a +:+ "}" +:+ b) = find_all_top_level_json (a +:+ b)
  ∧ ∀ read : string, 0 ≤ scan_depth read 0.
Proof.
  intros Hdepth Hfence. split.
  - rewrite !find_all_top_level_json_blocks, Hfence.
    change ("}" +:+ b) with (String "}" b).
    rewrite clean_fences_app_inert by done.
    rewrite !blocks_app, scan_depth_clean_fences, Hdepth.
    rewrite open_block_closed
      by (done || by rewrite scan_depth_clean_fences).
    simpl. done.
  - intros read. by apply scan_depth_nonneg.
Qed.

Lemma find_all_ignores_unmatched_close_witness :
  find_all_top_level_json ("```json {x{y}} " +:+ "}" +:+ " {z} ```")
  = find_all_top_level_json ("```json {x{y}} " +:+ " {z} ```")
  ∧ ∀ read : string, 0 ≤ scan_depth read 0.
Proof.
  apply find_all_ignores_unmatched_close; vm_compute; reflexivity.
Defined.

(** ** The recovery at work *)

(** A fenced object is extracted without its fences. *)
Example extract_fenced :
  extract_top_level_json
    ("```json" +:+ String "010" EmptyString +:+ plain_object
       +:+ String "010" EmptyString +:+ "```")
  = plain_object.
Proof. vm_compute. reflexivity. Qed.

(** Scenario C of the design document: a wrapper cut before its end fails
    the first three stages and is rebuilt by the repair. *)
Example recover_truncated_wrapper :
  json_loads truncated_wrapper = None
  ∧ json_loads (extract_top_level_json truncated_wrapper) = None
  ∧ score_and_pick json_loads (find_all_top_level_json truncated_wrapper) = None
  ∧ try_parse_or_coerce json_loads truncated_wrapper
    = JObj [("json", JObj [("story", JArr [JInt 1; JInt 2]); ("n", JStr "ab")])].
Proof. repeat split; vm_compute; reflexivity. Qed.

(** * Further properties of the code *)

(** ** EventSampler: order, keys and size of the sample *)

(** X1: for a size bound that is not negative, the output of
    [shrink_events] has at most [max_items] events and never more events
    than the input. *)
Theorem shrink_events_size events max_items :
  0 ≤ max_items →
  Z.of_nat (length (shrink_events events max_items))
  ≤ Z.min max_items (Z.of_nat (length events)).
Proof.
  intros Hm.
  destruct (decide (Z.of_nat (length events) ≤ max_items)) as [Hs|Hl].
  { rewrite shrink_events_short by done. lia. }
  rewrite shrink_events_long by lia.
  apply Z.min_glb; [by apply slice_to_length|].
  apply inj_le. etrans; [apply submseteq_length, sublist_submseteq, sublist_take|].
  unfold sort_by. rewrite stable_sort_perm.
  apply submseteq_length, NoDup_submseteq.
  - eapply NoDup_fmap_1, unique_sample_keys_NoDup.
  - apply unique_sample_subseteq.
Qed.

Lemma shrink_events_size_witness :
  Z.of_nat (length (shrink_events doubled_plants 3))
  ≤ Z.min 3 (Z.of_nat (length doubled_plants)).
Proof. apply shrink_events_size. lia. Defined.

(** X2: on a log longer than [max_items], no two events of the output of
    [shrink_events] have the same (ts, actor, action, target) key. *)
Theorem shrink_events_distinct_keys events max_items :
  max_items < Z.of_nat (length events) →
  NoDup (event_key <$> shrink_events events max_items).
Proof.
  intros Hl. rewrite shrink_events_long by done.
  eapply sublist_NoDup; [|apply fmap_sublist, sublist_take].
  unfold sort_by. rewrite stable_sort_perm.
  apply unique_sample_keys_NoDup.
Qed.

Lemma shrink_events_distinct_keys_witness :
  NoDup (event_key <$> shrink_events doubled_plants 3).
Proof. apply shrink_events_distinct_keys. simpl. lia. Defined.

Lemma ltb_leb s t : String.ltb s t = true → String.le s t.
Proof.
  unfold String.le, String.leb, String.ltb.
  by destruct (String.compare s t).
Qed.

Lemma not_ltb_leb s t : String.ltb s t = false → String.le t s.
Proof.
  unfold String.le, String.leb, String.ltb.
  rewrite (String.compare_antisym t s).
  by destruct (String.compare s t).
Qed.

Lemma sort_insert_sorted {A} (key : A → string) x l :
  StronglySorted (key_le key) l →
  StronglySorted (key_le key)
    (sort_insert (λ a b, String.ltb (key a) (key b)) x l).
Proof.
  induction l as [|y l IH]; simpl; intros Hl.
  { repeat constructor. }
  apply StronglySorted_cons in Hl as [Hy Hl].
  destruct (String.ltb (key y) (key x)) eqn:Hlt.
  - apply StronglySorted_cons. split; [|by apply IH].
    rewrite sort_insert_perm. constructor; [by apply ltb_leb | done].
  - apply not_ltb_leb in Hlt.
    apply StronglySorted_cons. split; [|by apply StronglySorted_cons].
    constructor; [done|].
    eapply Forall_impl; [exact Hy|]. intros z Hz. unfold key_le in *.
    by etrans.
Qed.

Lemma sort_by_sorted {A} (key : A → string) l :
  StronglySorted (key_le key) (sort_by key l).
Proof.
  unfold sort_by. induction l as [|x l IH]; simpl; [constructor|].
  by apply sort_insert_sorted.
Qed.

(** X3: on a log longer than [max_items], the output of [shrink_events]
    is in ascending order of the sort key [ts or "Z"]: every event comes
    before, or with, all the events after it. *)
Theorem shrink_events_sorted events max_items :
  max_items < Z.of_nat (length events) →
  StronglySorted (key_le sort_key) (shrink_events events max_items).
Proof.
  intros Hl. rewrite shrink_events_long by done.
  unfold Py.slice_to.
  set (sorted := sort_by sort_key _). set (n := Py.adjust _ _).
  pose proof (sort_by_sorted sort_key (unique_sample events max_items)) as Hs.
  fold sorted in Hs. rewrite <- (take_drop n sorted) in Hs.
  by apply StronglySorted_app_1_l in Hs.
Qed.

Lemma shrink_events_sorted_witness :
  StronglySorted (key_le sort_key) (shrink_events late_ts 2).
Proof. apply shrink_events_sorted. simpl. lia. Defined.

(** ** ResponseExtractor: the block of [extract_top_level_json] *)

Lemma count_char_app c (s t : string) :
  count_char c (s +:+ t) = (count_char c s + count_char c t)%nat.
Proof.
  induction s as [|d s IH]; [done|].
  rewrite append_cons. simpl. destruct (Ascii.eqb d c); lia.
Qed.

Lemma brace_excess_snoc cur c :
  brace_excess (cur +:+ String c EmptyString)
  = brace_excess cur
    + (if Ascii.eqb c "{" then 1 else if Ascii.eqb c "}" then -1 else 0).
Proof.
  unfold brace_excess. rewrite !count_char_app. simpl.
  destruct (Ascii.eqb_spec c "{") as [->|]; [simpl; lia|].
  destruct (Ascii.eqb c "}"); lia.
Qed.

Lemma brace_excess_cons c s :
  brace_excess (String c s)
  = (if Ascii.eqb c "{" then 1 else if Ascii.eqb c "}" then -1 else 0)
    + brace_excess s.
Proof.
  unfold brace_excess. simpl.
  destruct (Ascii.eqb_spec c "{") as [->|]; [simpl; lia|].
  destruct (Ascii.eqb c "}"); lia.
Qed.

Lemma ends_with_close_cons c b : ends_with_close b → ends_with_close (String c b).
Proof. intros [body ->]. by exists (String c body). Qed.

Lemma substring_full (s : string) : String.substring 0 (String.length s) s = s.
Proof. induction s as [|c s IH]; [done|]. simpl. by rewrite IH. Qed.

Lemma substring_head (blk post : string) :
  String.substring 0 (String.length blk) (blk +:+ post) = blk.
Proof.
  induction blk as [|c blk IH]; [rewrite append_nil_l; by destruct post|].
  rewrite append_cons. simpl. by rewrite IH.
Qed.

Lemma substring_middle (pre blk post : string) :
  String.substring (String.length pre) (String.length blk) (pre +:+ blk +:+ post)
  = blk.
Proof.
  induction pre as [|c pre IH]; [rewrite append_nil_l; apply substring_head|].
  rewrite append_cons. simpl. apply IH.
Qed.

(** Where [s.find(c)] points. *)
Lemma find_char_split c s n :
  find_char c s = Some n →
  ∃ pre rest,
    s = pre +:+ String c rest ∧ String.length pre = n
    ∧ count_char c pre = 0%nat ∧ str_drop n s = String c rest.
Proof.
  revert n. induction s as [|d s IH]; intros n; simpl; [done|].
  destruct (Ascii.eqb_spec d c) as [->|Hne].
  - intros [= <-]. by exists EmptyString, s.
  - destruct (find_char c s) as [m|]; [|done]. intros [= <-].
    destruct (IH m eq_refl) as (pre & rest & -> & <- & Hc & Hd).
    exists (String d pre), rest. rewrite append_cons. simpl.
    repeat split; [|done].
    by destruct (Ascii.eqb_spec d c).
Qed.

Lemma extract_scan_shift r i depth :
  extract_scan r i depth = (λ e, i + e)%nat <$> extract_scan r 0 depth.
Proof.
  revert i depth. induction r as [|c r IH]; intros i depth; simpl; [done|].
  assert (∀ d, extract_scan r (S i) d
               = (λ e, i + e)%nat <$> extract_scan r 1 d) as Hstep.
  { intros d. rewrite (IH (S i)), (IH 1%nat).
    destruct (extract_scan r 0 d); simpl; [f_equal; lia | done]. }
  destruct (Ascii.eqb c "{"); [apply Hstep|].
  destruct (Ascii.eqb c "}"); [|apply Hstep].
  destruct (depth - 1 =? 0); [simpl; f_equal; lia | apply Hstep].
Qed.

(** Where the scan stops: at the end of a prefix that closes with a brace
    and has as many closing braces more than opening ones as the depth it
    started from. *)
Lemma extract_scan_spec r i depth e :
  extract_scan r i depth = Some e →
  ∃ blk post,
    r = blk +:+ post ∧ e = (i + String.length blk)%nat
    ∧ ends_with_close blk ∧ brace_excess blk = - depth
    ∧ extract_scan blk i depth = Some (i + String.length blk)%nat.
Proof.
  revert i depth. induction r as [|c r IH]; intros i depth; simpl; [done|].
  assert (∀ d, d = depth + (if Ascii.eqb c "{" then 1
                            else if Ascii.eqb c "}" then -1 else 0) →
               (∀ t, extract_scan (String c t) i depth = extract_scan t (S i) d) →
               extract_scan r (S i) d = Some e →
               ∃ blk post,
                 String c r = blk +:+ post ∧ e = (i + String.length blk)%nat
                 ∧ ends_with_close blk ∧ brace_excess blk = - depth
                 ∧ extract_scan blk i depth = Some (i + String.length blk)%nat)
    as Hstep.
  { intros d Hd Hunf (blk & post & -> & -> & Hend & Hex & Hscan)%IH.
    exists (String c blk), post. rewrite append_cons. simpl String.length.
    repeat split; [lia | by apply ends_with_close_cons | |].
    - rewrite brace_excess_cons, Hex. lia.
    - rewrite Hunf, Hscan. f_equal. lia. }
  destruct (Ascii.eqb c "{") eqn:Ho.
  { apply (Hstep (depth + 1)); [done|]. intros t. simpl. by rewrite Ho. }
  destruct (Ascii.eqb c "}") eqn:Hc.
  - destruct (Z.eqb_spec (depth - 1) 0) as [Hz|Hnz].
    + intros [= <-]. exists (String c EmptyString), r.
      apply Ascii.eqb_eq in Hc as ->. simpl.
      repeat split; [lia | by exists EmptyString | |].
      * unfold brace_excess. simpl. lia.
      * destruct (Z.eqb_spec (depth - 1) 0); [f_equal; lia | done].
    + apply (Hstep (depth - 1)); [lia|]. intros t. simpl. rewrite Ho, Hc.
      by destruct (Z.eqb_spec (depth - 1) 0).
  - apply (Hstep depth); [lia|]. intros t. simpl. by rewrite Ho, Hc.
Qed.

Lemma extract_scan_at_zero blk i depth :
  extract_scan blk i depth = Some (i + String.length blk)%nat →
  extract_scan blk 0 depth = Some (String.length blk).
Proof.
  rewrite extract_scan_shift.
  destruct (extract_scan blk 0 depth) as [n|]; simpl; [|done].
  intros [= H]. f_equal. lia.
Qed.

(** The search for a block in the cleaned text [t], as
    [extract_top_level_json] ends. *)
Lemma extract_top_level_json_unfold c s :
  extract_top_level_json (String c s)
  = let t := extract_clean (String c s) in
    match find_char "{" t with
    | None => t
    | Some start =>
        match extract_scan (str_drop start t) start 0 with
        | None => t
        | Some end_ => String.substring start (end_ - start) t
        end
    end.
Proof. reflexivity. Qed.

(** X4: [extract_top_level_json] returns either the cleaned text as it is,
    or a block of it that starts at its first opening brace, ends with a
    closing brace, has as many opening as closing braces, and is balanced
    for the scan (the depth is back to zero at its last character and not
    before). *)
Theorem extract_top_level_json_block s :
  extract_top_level_json s = extract_clean s
  ∨ ∃ pre blk post,
      extract_clean s = pre +:+ blk +:+ post
      ∧ extract_top_level_json s = blk
      ∧ count_char "{" pre = 0%nat
      ∧ balanced_block blk
      ∧ ends_with_close blk
      ∧ brace_excess blk = 0.
Proof.
  destruct s as [|c s]; [by left|].
  rewrite extract_top_level_json_unfold.
  set (t := extract_clean (String c s)). simpl.
  destruct (find_char "{" t) as [start|] eqn:Hfind; [|by left].
  apply find_char_split in Hfind as (pre & rest & Ht & Hlen & Hpre & Hdrop).
  rewrite Hdrop.
  destruct (extract_scan (String "{" rest) start 0) as [e|] eqn:Hscan; [|by left].
  apply extract_scan_spec in Hscan
    as (blk & post & Hblk & -> & Hend & Hex & Hscan).
  right. exists pre, blk, post.
  assert (t = pre +:+ blk +:+ post) as Ht' by (by rewrite Ht, Hblk).
  split; [done|]. split.
  { rewrite Ht', <- Hlen.
    replace (String.length pre + String.length blk - String.length pre)%nat
      with (String.length blk) by lia.
    apply substring_middle. }
  split; [done|]. split; [|by split].
  split; [|by apply extract_scan_at_zero in Hscan].
  destruct Hend as [body ->]. destruct body as [|d body].
  - rewrite append_nil_l in Hblk. by injection Hblk.
  - rewrite append_cons in Hblk. injection Hblk as <- _.
    rewrite append_cons. simpl. by destruct (body +:+ "}").
Qed.

Lemma lstrip_nonspace c s : py_isspace c = false → lstrip (String c s) = String c s.
Proof. intros H. simpl. by rewrite H. Qed.

Lemma lstrip_blank w s : all_space w = true → lstrip (w +:+ s) = lstrip s.
Proof.
  induction w as [|c w IH]; [done|].
  intros H. simpl in H. apply andb_true_iff in H as [Hc Hw].
  rewrite append_cons. cbn [lstrip]. rewrite Hc. by apply IH.
Qed.

Lemma rstrip_nonspace_end u c :
  py_isspace c = false →
  rstrip (u +:+ String c EmptyString) = u +:+ String c EmptyString.
Proof.
  intros Hc. induction u as [|d u IH].
  - rewrite append_nil_l. simpl. by rewrite Hc.
  - rewrite append_cons. simpl. rewrite IH.
    destruct u; by rewrite ?append_nil_l, ?append_cons.
Qed.

Lemma lstrip_count_close s : count_char "}" (lstrip s) = count_char "}" s.
Proof.
  induction s as [|c s IH]; [done|]. simpl.
  destruct (py_isspace c) eqn:Hc; [|done].
  apply isspace_not_brace in Hc as [_ ->]. done.
Qed.

(** No trailing fence is found where a closing brace follows. *)
Lemma match_trailing_fence_close s :
  (0 < count_char "}" s)%nat → match_trailing_fence s = None.
Proof.
  intros Hs. unfold match_trailing_fence.
  rewrite <- lstrip_count_close in Hs.
  destruct (String.eqb_spec (lstrip s) fence) as [Heq|_].
  { rewrite Heq in Hs. vm_compute in Hs. lia. }
  destruct (String.eqb_spec (lstrip s) (fence +:+ String "010" EmptyString))
    as [Heq|_]; [|done].
  rewrite Heq in Hs. vm_compute in Hs. lia.
Qed.

Lemma sub_trailing_fence_cons c s :
  sub_trailing_fence (String c s)
  = match match_trailing_fence (String c s) with
    | Some r => r
    | None => String c (sub_trailing_fence s)
    end.
Proof. reflexivity. Qed.

Lemma sub_trailing_fence_close u rest :
  sub_trailing_fence (u +:+ String "}" rest)
  = u +:+ String "}" (sub_trailing_fence rest).
Proof.
  induction u as [|c u IH].
  - rewrite !append_nil_l, sub_trailing_fence_cons.
    rewrite match_trailing_fence_close; [done|]. simpl. lia.
  - rewrite !append_cons, sub_trailing_fence_cons.
    rewrite match_trailing_fence_close; [by rewrite IH|].
    change (String c (u +:+ String "}" rest)) with (String c u +:+ String "}" rest).
    rewrite count_char_app. simpl. lia.
Qed.

Lemma sub_trailing_fence_match s r :
  match_trailing_fence s = Some r → sub_trailing_fence s = r.
Proof.
  intros H. destruct s as [|c s]; [by vm_compute in H|].
  by rewrite sub_trailing_fence_cons, H.
Qed.

Lemma balanced_block_ends b : balanced_block b → ends_with_close b.
Proof.
  intros [_ Hscan].
  apply extract_scan_spec in Hscan as (blk & post & Hb & Hlen & Hend & _).
  assert (post = EmptyString) as ->.
  { apply (f_equal String.length) in Hb. rewrite length_append in Hb.
    destruct post; [done | simpl in Hb; lia]. }
  by rewrite append_nil_r in Hb; subst.
Qed.

Lemma prefix_cons a p b (s : string) :
  String.prefix (String a p) (String b s)
  = if ascii_dec a b then String.prefix p s else false.
Proof. reflexivity. Qed.

Lemma balanced_block_head b :
  balanced_block b → ∃ rest, b = String "{" rest.
Proof.
  intros [Hpre _]. destruct b as [|c b]; [done|].
  change (String.prefix "{" (String c b))
    with (String.prefix (String "{" EmptyString) (String c b)) in Hpre.
  rewrite prefix_cons in Hpre.
  destruct (ascii_dec "{" c) as [<-|]; [by exists b | done].
Qed.

(** The search finds a balanced block whole. *)
Lemma find_block_of_block t :
  balanced_block t →
  match find_char "{" t with
  | None => t
  | Some start =>
      match extract_scan (str_drop start t) start 0 with
      | None => t
      | Some end_ => String.substring start (end_ - start) t
      end
  end = t.
Proof.
  intros Hb. destruct (balanced_block_head t Hb) as [rest ->].
  destruct Hb as [_ Hscan].
  change (find_char "{" (String "{" rest)) with (Some 0%nat). cbv beta iota.
  change (str_drop 0 (String "{" rest)) with (String "{" rest).
  rewrite Hscan. rewrite Nat.sub_0_r. apply substring_full.
Qed.

(** X5: a balanced block is returned as it is by
    [extract_top_level_json]; with X4, extracting from an extracted block
    changes nothing. *)
Theorem extract_top_level_json_fixes_block b :
  balanced_block b → extract_top_level_json b = b.
Proof.
  intros Hb.
  destruct (balanced_block_head b Hb) as [rest Hhead].
  destruct (balanced_block_ends b Hb) as [body Hbody].
  assert (extract_clean b = b) as Hclean.
  { unfold extract_clean, strip.
    rewrite Hhead at 1. rewrite lstrip_nonspace by reflexivity.
    rewrite <- Hhead, Hbody, rstrip_nonspace_end by reflexivity.
    rewrite <- Hbody, Hhead. unfold sub_leading_fence. simpl String.prefix.
    rewrite <- Hhead, Hbody.
    change (body +:+ "}") with (body +:+ String "}" EmptyString).
    by rewrite sub_trailing_fence_close. }
  rewrite Hhead at 1. rewrite extract_top_level_json_unfold, <- Hhead.
  simpl. rewrite Hclean. by apply find_block_of_block.
Qed.

Lemma extract_top_level_json_fixes_block_witness :
  extract_top_level_json plain_object = plain_object.
Proof.
  apply extract_top_level_json_fixes_block. split; vm_compute; reflexivity.
Defined.

Lemma prefix_app_self p (r : string) : String.prefix p (p +:+ r) = true.
Proof.
  induction p as [|c p IH]; [rewrite append_nil_l; by destruct r|].
  rewrite append_cons, prefix_cons. by destruct (ascii_dec c c).
Qed.

Lemma rstrip_fence_end x : rstrip (x +:+ fence) = x +:+ fence.
Proof.
  change fence with ("``" +:+ String "`" EmptyString).
  rewrite <- append_assoc. by apply rstrip_nonspace_end.
Qed.

Lemma prefix_json_blank w rest :
  all_space w = true →
  String.prefix "json" (w +:+ String "{" rest) = false.
Proof.
  destruct w as [|c w]; [done|].
  intros H. simpl in H. apply andb_true_iff in H as [Hc _].
  rewrite append_cons.
  change "json" with (String "j" "son"). rewrite prefix_cons.
  destruct (ascii_dec "j" c) as [<-|]; [by vm_compute in Hc | done].
Qed.

(** X6: a balanced block between an opening fence, with or without the
    json tag, and a closing fence, with blanks around the block, is
    extracted without the fences and the blanks. *)
Theorem extract_top_level_json_fenced tag w1 b w2 :
  tag = EmptyString ∨ tag = "json" →
  all_space w1 = true → all_space w2 = true →
  balanced_block b →
  extract_top_level_json (fence +:+ tag +:+ w1 +:+ b +:+ w2 +:+ fence) = b.
Proof.
  intros Htag Hw1 Hw2 Hb.
  destruct (balanced_block_head b Hb) as [rest Hhead].
  destruct (balanced_block_ends b Hb) as [body Hbody].
  set (inner := w1 +:+ b +:+ w2 +:+ fence).
  assert (lstrip inner = b +:+ w2 +:+ fence) as Hinner.
  { unfold inner. rewrite lstrip_blank by done. rewrite Hhead at 1.
    rewrite append_cons, lstrip_nonspace by reflexivity.
    by rewrite <- append_cons, <- Hhead. }
  assert (extract_clean (fence +:+ tag +:+ inner) = b) as Hclean.
  { unfold extract_clean, strip.
    assert (lstrip (fence +:+ tag +:+ inner) = fence +:+ tag +:+ inner) as ->
      by reflexivity.
    assert (rstrip (fence +:+ tag +:+ inner) = fence +:+ tag +:+ inner) as ->.
    { unfold inner. rewrite <- !append_assoc. apply rstrip_fence_end. }
    assert (sub_leading_fence (fence +:+ tag +:+ inner) = lstrip inner) as ->.
    { unfold sub_leading_fence. rewrite prefix_app_self.
      change (str_drop 3 (fence +:+ tag +:+ inner)) with (tag +:+ inner).
      cbv zeta. destruct Htag as [-> | ->].
      - rewrite append_nil_l. unfold inner at 1.
        rewrite Hhead at 1. rewrite append_cons.
        by rewrite prefix_json_blank.
      - by rewrite prefix_app_self. }
    rewrite Hinner, Hbody.
    change (body +:+ "}") with (body +:+ String "}" EmptyString).
    rewrite append_assoc, append_cons, append_nil_l.
    rewrite sub_trailing_fence_close.
    rewrite (sub_trailing_fence_match _ EmptyString); [done|].
    unfold match_trailing_fence. by rewrite lstrip_blank. }
  change (fence +:+ tag +:+ inner)
    with (String "`" (String "`" (String "`" (tag +:+ inner)))) at 1.
  rewrite extract_top_level_json_unfold.
  change (String "`" (String "`" (String "`" (tag +:+ inner))))
    with (fence +:+ tag +:+ inner).
  simpl. rewrite Hclean. by apply find_block_of_block.
Qed.

Lemma extract_top_level_json_fenced_witness :
  extract_top_level_json
    (fence +:+ "json" +:+ newline +:+ plain_object +:+ newline +:+ fence)
  = plain_object.
Proof.
  apply extract_top_level_json_fenced.
  - by right.
  - reflexivity.
  - reflexivity.
  - split; vm_compute; reflexivity.
Defined.

(** ** ResponseExtractor: the candidates of [find_all_top_level_json] *)

Lemma prefix_app_l p (s t : string) :
  String.prefix p s = true → String.prefix p (s +:+ t) = true.
Proof.
  revert s. induction p as [|a p IH]; intros s; [by destruct (s +:+ t)|].
  destruct s as [|b s]; [done|]. rewrite append_cons, !prefix_cons.
  destruct (ascii_dec a b); [apply IH | done].
Qed.

(** Every block the scan emits starts with an opening brace, ends with a
    closing one and has as many of the one as of the other. *)
Lemma blocks_shape rest depth cur :
  (depth = 0 ∧ cur = EmptyString)
    ∨ (0 < depth ∧ String.prefix "{" cur = true ∧ brace_excess cur = depth) →
  Forall (λ b, String.prefix "{" b = true ∧ ends_with_close b ∧ brace_excess b = 0)
    (blocks rest depth cur).
Proof.
  revert depth cur. induction rest as [|c rest IH]; intros depth cur Hinv.
  { constructor. }
  cbn [blocks].
  pose proof (brace_excess_snoc cur c) as Hex.
  destruct (Ascii.eqb c "{") eqn:Ho.
  { apply IH. right. destruct Hinv as [[-> ->]|(Hd & Hp & He)].
    - apply Ascii.eqb_eq in Ho as ->. by vm_compute.
    - split; [lia|]. split; [by apply prefix_app_l | lia]. }
  destruct (Ascii.eqb c "}") eqn:Hc.
  - destruct (Z.ltb_spec 0 depth) as [Hpos|Hneg].
    + destruct Hinv as [[-> _]|(_ & Hp & He)]; [lia|].
      destruct (Z.eqb_spec (depth - 1) 0) as [Hz|Hnz].
      * constructor.
        -- split; [by apply prefix_app_l|]. split; [|lia].
           apply Ascii.eqb_eq in Hc as ->. by exists cur.
        -- apply IH. by left.
      * apply IH. right. split; [lia|]. split; [by apply prefix_app_l | lia].
    + apply IH. destruct Hinv as [?|[? _]]; [by left | lia].
  - apply IH. destruct Hinv as [[-> ->]|(Hd & Hp & He)].
    + by left.
    + right. destruct (Z.ltb_spec 0 depth); [|lia].
      split; [done|]. split; [by apply prefix_app_l | lia].
Qed.

(** X7: every candidate of [find_all_top_level_json] starts with an
    opening brace, ends with a closing brace and has as many opening as
    closing braces. *)
Theorem find_all_top_level_json_balanced s :
  Forall (λ b, String.prefix "{" b = true ∧ ends_with_close b ∧ brace_excess b = 0)
    (find_all_top_level_json s).
Proof.
  rewrite find_all_top_level_json_blocks. apply blocks_shape. by left.
Qed.

Lemma prefix_ticks n s :
  String.prefix (RepairSpec.copies n "`") s = true ↔ (n ≤ leading_ticks s)%nat.
Proof.
  revert s. induction n as [|n IH]; intros s.
  { simpl. split; [lia | by destruct s]. }
  destruct s as [|a s]; [simpl; split; [done | lia]|].
  cbn [RepairSpec.copies leading_ticks]. rewrite prefix_cons.
  destruct (ascii_dec "`" a) as [<-|Hne].
  - rewrite Ascii.eqb_refl, IH. lia.
  - apply not_eq_sym, Ascii.eqb_neq in Hne. rewrite Hne. split; [done | lia].
Qed.

Lemma prefix_fence_ticks s :
  String.prefix fence s = true ↔ (3 ≤ leading_ticks s)%nat.
Proof. apply (prefix_ticks 3). Qed.

Lemma prefix_app_false p q (s : string) :
  String.prefix p s = false → String.prefix (p +:+ q) s = false.
Proof.
  revert s. induction p as [|a p IH]; intros s; [by destruct s|].
  rewrite append_cons. destruct s as [|b s]; [done|]. rewrite !prefix_cons.
  destruct (ascii_dec a b); [apply IH | done].
Qed.

Lemma find_fence_none s :
  String.prefix fence s = false →
  List.find (λ p, String.prefix p s) [fence +:+ "json"; fence] = None.
Proof.
  intros H. cbn [List.find]. by rewrite prefix_app_false, H.
Qed.

Lemma find_fence_some s p :
  List.find (λ p, String.prefix p s) [fence +:+ "json"; fence] = Some p →
  String.prefix fence s = true.
Proof.
  destruct (String.prefix fence s) eqn:H; [done|].
  by rewrite find_fence_none.
Qed.

(** What [sub_fences] leaves never starts with a fence; the backticks at
    the head of a text that does not start with a fence are left alone. *)
Lemma sub_fences_leading_ticks s k :
  (leading_ticks (remove_from [fence +:+ "json"; fence] k s) < 3)%nat
  ∧ (k = 0%nat → (leading_ticks s < 3)%nat →
     leading_ticks (remove_from [fence +:+ "json"; fence] 0 s) = leading_ticks s).
Proof.
  revert k. induction s as [|c s IH]; intros k.
  { split; [simpl; lia | done]. }
  destruct k as [|k].
  - rewrite remove_from_0_cons.
    destruct (List.find _ _) as [p|] eqn:Hfind.
    + split; [apply IH|]. intros _ Hlt.
      apply find_fence_some, prefix_fence_ticks in Hfind. lia.
    + assert (String.prefix fence (String c s) = false) as Hno.
      { destruct (String.prefix fence (String c s)) eqn:H; [|done].
        cbn [List.find] in Hfind. rewrite H in Hfind.
        by destruct (String.prefix (fence +:+ "json") (String c s)). }
      assert (leading_ticks (String c s) < 3)%nat as Hlt.
      { destruct (decide (3 ≤ leading_ticks (String c s))%nat) as [Hge|]; [|lia].
        apply prefix_fence_ticks in Hge. congruence. }
      assert (leading_ticks
                (String c (remove_from [fence +:+ "json"; fence] 0 s))
              = leading_ticks (String c s)) as Heq.
      { cbn [leading_ticks] in *. destruct (Ascii.eqb c "`"); [|done].
        f_equal. destruct (IH 0%nat) as [_ Hkeep]. apply Hkeep; [done | lia]. }
      split; [lia | done].
  - rewrite remove_from_S_cons. split; [apply IH | done].
Qed.

Lemma replace_fence_sub_fences_from s k :
  remove_from [fence] 0 (remove_from [fence +:+ "json"; fence] k s)
  = remove_from [fence +:+ "json"; fence] k s.
Proof.
  revert k. induction s as [|c s IH]; intros k; [by destruct k|].
  destruct k as [|k]; [|rewrite remove_from_S_cons; apply IH].
  pose proof (sub_fences_leading_ticks (String c s) 0) as [Hlt _].
  rewrite remove_from_0_cons in *.
  destruct (List.find _ [fence +:+ "json"; fence]) as [p|]; [apply IH|].
  rewrite remove_from_0_cons. cbn [List.find].
  destruct (String.prefix fence _) eqn:Hpre.
  { apply prefix_fence_ticks in Hpre. lia. }
  by rewrite IH.
Qed.

(** X8: after the fences with their tag have been removed no fence is
    left: the second removal of [find_all_top_level_json],
    [s.replace] of a fence, never changes the text. *)
Theorem replace_fence_after_sub_fences s :
  replace_fence (sub_fences s) = sub_fences s.
Proof. apply replace_fence_sub_fences_from. Qed.

(** ** CandidateScorer: normalisation and scores *)

(** X9: [wrap_if_needed] is idempotent: a normalised value is returned as
    it is. *)
Theorem wrap_if_needed_idempotent obj :
  wrap_if_needed (wrap_if_needed obj) = wrap_if_needed obj.
Proof.
  destruct obj as [| | | | | |d]; try reflexivity.
  destruct (negb (dict_has "json" d) && forallb (λ k, dict_has k d) expected)
    eqn:Hcond.
  - assert (wrap_if_needed (JObj d) = JObj [("json", JObj d)]) as ->
      by (unfold wrap_if_needed; by rewrite Hcond).
    reflexivity.
  - assert (wrap_if_needed (JObj d) = JObj d) as ->
      by (unfold wrap_if_needed; by rewrite Hcond).
    unfold wrap_if_needed. by rewrite Hcond.
Qed.

Lemma fold_score_fields (r : list (string * json)) (z : Z) :
  fold_left (λ score k, if dict_has k r then score + 1 else score) expected z
  = z + (if dict_has "story" r then 1 else 0)
      + (if dict_has "coaching" r then 1 else 0)
      + (if dict_has "highlights" r then 1 else 0)
      + (if dict_has "metrics" r then 1 else 0).
Proof.
  unfold expected. cbn [fold_left].
  destruct (dict_has "story" r), (dict_has "coaching" r),
    (dict_has "highlights" r), (dict_has "metrics" r); lia.
Qed.

Lemma forallb_expected (r : list (string * json)) :
  forallb (λ k, dict_has k r) expected
  = dict_has "story" r && dict_has "coaching" r
    && dict_has "highlights" r && dict_has "metrics" r.
Proof.
  unfold expected. cbn [forallb].
  by destruct (dict_has "story" r), (dict_has "coaching" r),
    (dict_has "highlights" r), (dict_has "metrics" r).
Qed.

Lemma candidate_score_obj d :
  candidate_score (JObj d)
  = match dict_get "json" d with
    | Some (JObj r) =>
        fold_left (λ score k, if dict_has k r then score + 1 else score) expected 2
    | Some _ => 2
    | None =>
        fold_left (λ score k, if dict_has k d then score + 1 else score) expected 0
    end.
Proof.
  unfold candidate_score, has_json_key. cbv zeta.
  destruct (dict_get "json" d) as [root|] eqn:Hroot.
  - assert (dict_has "json" d = true) as -> by (unfold dict_has; by rewrite Hroot).
    by destruct root.
  - assert (dict_has "json" d = false) as -> by (unfold dict_has; by rewrite Hroot).
    reflexivity.
Qed.

(** X10: a score lies between 0 and 6, and it is 6 exactly for an object
    with the key json whose value is an object with the four report
    fields. *)
Theorem candidate_score_range obj :
  0 ≤ candidate_score obj ≤ 6
  ∧ (candidate_score obj = 6 ↔
     ∃ d r, obj = JObj d ∧ dict_get "json" d = Some (JObj r)
            ∧ forallb (λ k, dict_has k r) expected = true).
Proof.
  destruct obj as [| | | | | |d];
    try (split; [by vm_compute|]; split;
         [by vm_compute | by intros (? & ? & ? & _)]).
  rewrite candidate_score_obj.
  destruct (dict_get "json" d) as [root|] eqn:Hroot.
  - destruct root as [| | | | | |r];
      try (split; [lia|]; split; [lia|];
           intros (d' & r' & [= <-] & Hr & _); congruence).
    rewrite fold_score_fields.
    split.
    { destruct (dict_has "story" r), (dict_has "coaching" r),
        (dict_has "highlights" r), (dict_has "metrics" r); lia. }
    split.
    + intros Hsix. exists d, r. repeat split; [done|].
      rewrite forallb_expected.
      destruct (dict_has "story" r), (dict_has "coaching" r),
        (dict_has "highlights" r), (dict_has "metrics" r); done || lia.
    + intros (d' & r' & [= <-] & Hr & Hall).
      rewrite Hroot in Hr. injection Hr as <-.
      rewrite forallb_expected in Hall.
      destruct (dict_has "story" r), (dict_has "coaching" r),
        (dict_has "highlights" r), (dict_has "metrics" r); done || lia.
  - rewrite fold_score_fields.
    split.
    { destruct (dict_has "story" d), (dict_has "coaching" d),
        (dict_has "highlights" d), (dict_has "metrics" d); lia. }
    split.
    + destruct (dict_has "story" d), (dict_has "coaching" d),
        (dict_has "highlights" d), (dict_has "metrics" d); lia.
    + intros (d' & r' & [= <-] & Hr & _). congruence.
Qed.

Section PickFacts.
Variable loads : string → option json.

(** X11: when exactly one parsed candidate has the top score 6, stage 3
    picks it wherever it stands among the candidates. *)
Theorem pick_best_full_wrapper cands pre y post :
  parsed_candidates loads cands = pre ++ y :: post →
  candidate_score y = 6 →
  Forall (λ z, candidate_score z < 6) pre →
  Forall (λ z, candidate_score z < 6) post →
  pick_best loads cands = y.
Proof.
  intros Hparsed Hy Hpre Hpost. unfold pick_best.
  destruct (score_loop_spec loads cands JNull (-1)) as [[_ Hall]|Hex].
  { rewrite Hparsed in Hall. apply Forall_app in Hall as [_ Hall].
    apply Forall_cons_1 in Hall as [Hlow _]. lia. }
  destruct Hex as (pre' & post' & Hp & _ & _ & Hpre' & Hpost').
  set (best := (score_loop loads cands JNull (-1)).1) in *.
  assert (6 ≤ candidate_score best) as Hbest.
  { assert (y ∈ pre' ++ best :: post') as Hin.
    { rewrite <- Hp, Hparsed. apply elem_of_app. right. apply list_elem_of_here. }
    rewrite Forall_forall in Hpre', Hpost'.
    apply elem_of_app in Hin as [Hin|[->|Hin]%elem_of_cons].
    - specialize (Hpre' _ Hin). lia.
    - lia.
    - specialize (Hpost' _ Hin). lia. }
  assert (best ∈ pre ++ y :: post) as Hin.
  { rewrite <- Hparsed, Hp. apply elem_of_app. right. apply list_elem_of_here. }
  rewrite Forall_forall in Hpre, Hpost.
  apply elem_of_app in Hin as [Hin|[->|Hin]%elem_of_cons]; [|done|].
  - specialize (Hpre _ Hin). lia.
  - specialize (Hpost _ Hin). lia.
Qed.
End PickFacts.

Lemma pick_best_full_wrapper_witness :
  pick_best json_loads [plain_object; full_wrapper; json_number]
  = full_wrapper_value.
Proof.
  apply (pick_best_full_wrapper json_loads _
           [JObj [("a", JInt 1)]] _ [JObj [("json", JInt 1)]]).
  - vm_compute. reflexivity.
  - vm_compute. reflexivity.
  - repeat constructor.
  - repeat constructor.
Defined.

(** ** JSONRepairer and RecoveryOrchestrator: edge cases and provenance *)

Lemma lstrip_all_space s : all_space s = true → lstrip s = EmptyString.
Proof.
  induction s as [|c s IH]; [done|]. simpl.
  intros [Hc Hs]%andb_true_iff. rewrite Hc. by apply IH.
Qed.

Lemma extract_top_level_json_blank s :
  all_space s = true → extract_top_level_json s = EmptyString.
Proof.
  intros Hs. destruct s as [|c s]; [done|].
  rewrite extract_top_level_json_unfold.
  assert (extract_clean (String c s) = EmptyString) as ->; [|done].
  unfold extract_clean, strip. by rewrite lstrip_all_space.
Qed.

Section LadderProvenance.
Variable loads : string → option json.

(** X12: on an empty text or a text of blanks, [naive_json_repair] returns
    None, whatever the decoder would make of the text. *)
Theorem naive_json_repair_blank s :
  all_space s = true → naive_json_repair loads s = JNull.
Proof.
  intros Hs. unfold naive_json_repair.
  by rewrite extract_top_level_json_blank.
Qed.

Lemma naive_json_repair_parse trunc :
  naive_json_repair loads trunc = JNull
  ∨ ∃ text, loads text = Some (naive_json_repair loads trunc).
Proof.
  unfold naive_json_repair.
  destruct (strip (extract_top_level_json trunc)) as [|c cand]; [by left|].
  cbv zeta.
  match goal with
  | |- context [loads ?t1] =>
      destruct (loads t1) as [v1|] eqn:H1; [right; by exists t1|]
  end.
  match goal with
  | |- context [match loads ?t2 with _ => _ end] =>
      destruct (loads t2) as [v2|] eqn:H2; [right; by exists t2 | by left]
  end.
Qed.

Lemma pick_best_parsed cands :
  pick_best loads cands = JNull
  ∨ pick_best loads cands ∈ parsed_candidates loads cands.
Proof.
  unfold pick_best.
  destruct (score_loop_spec loads cands JNull (-1)) as [[-> _]|Hex]; [by left|].
  destruct Hex as (pre & post & -> & _). right.
  apply elem_of_app. right. apply list_elem_of_here.
Qed.

(** X13: whatever [try_parse_or_coerce] returns, other than None, is a
    value the decoder gave for some text, as it is or normalised by
    [wrap_if_needed]: the ladder builds no value of its own. *)
Theorem try_parse_or_coerce_provenance raw_text :
  try_parse_or_coerce loads raw_text = JNull
  ∨ ∃ text obj,
      loads text = Some obj
      ∧ (try_parse_or_coerce loads raw_text = wrap_if_needed obj
         ∨ try_parse_or_coerce loads raw_text = obj).
Proof.
  unfold try_parse_or_coerce.
  destruct (loads raw_text) as [obj|] eqn:H1.
  { right. exists raw_text, obj. auto. }
  destruct (loads (extract_top_level_json raw_text)) as [obj|] eqn:H2.
  { right. exists (extract_top_level_json raw_text), obj. auto. }
  unfold score_and_pick.
  destruct (py_truthy (pick_best loads (find_all_top_level_json raw_text)))
    eqn:Htruthy.
  - destruct (pick_best_parsed (find_all_top_level_json raw_text)) as [Hnull|Hin].
    { rewrite Hnull in Htruthy. done. }
    apply list_elem_of_omap in Hin as (cand & _ & Hcand).
    destruct (loads cand) as [obj|] eqn:H3; [|done].
    injection Hcand as Hcand. right. exists cand, obj. auto.
  - destruct (naive_json_repair_parse raw_text) as [Hnull|[text Htext]].
    + by left.
    + right. exists text, (naive_json_repair loads raw_text). auto.
Qed.
End LadderProvenance.

Lemma naive_json_repair_blank_witness :
  naive_json_repair json_loads newline = JNull.
Proof. apply naive_json_repair_blank. reflexivity. Defined.

(** ** ModelCaller: bounds and outcomes of one call *)

Section CallBounds.
Import ModelCaller.
Variable backend : nat → string → response.

Lemma pro_requests_snoc_request trace m :
  pro_requests (trace ++ [Request m])
  = pro_requests trace ++ (if is_pro m then [m] else []).
Proof.
  unfold pro_requests. rewrite requested_snoc_request, filter_app.
  f_equal. rewrite filter_cons, filter_nil.
  destruct (is_pro m); by case_decide.
Qed.

Lemma pro_requests_snoc_sleep trace d :
  pro_requests (trace ++ [Sleep d]) = pro_requests trace.
Proof. unfold pro_requests. by rewrite requested_snoc_sleep. Qed.

Lemma sleeps_snoc_request trace m : sleeps (trace ++ [Request m]) = sleeps trace.
Proof. unfold sleeps. rewrite omap_app. simpl. by rewrite app_nil_r. Qed.

Lemma sleeps_snoc_sleep trace d : sleeps (trace ++ [Sleep d]) = sleeps trace ++ [d].
Proof. unfold sleeps. by rewrite omap_app. Qed.

Lemma is_pro_flash : is_pro flash = false.
Proof. reflexivity. Qed.

(** One iteration of the loop, case by case. *)
Ltac loop_cases attempt max_retries curr_model :=
  cbn [retry_loop];
  destruct (Z.leb_spec attempt max_retries);
  [ destruct (backend (Z.to_nat attempt) curr_model) as [text| |delay|] eqn:Hanswer;
    [ | destruct (is_pro curr_model) eqn:Hpro
      | match goal with
        | |- context [if ?c <? 0 then _ else _] => destruct (Z.ltb_spec c 0)
        end
      | destruct (is_pro curr_model) eqn:Hpro ]
  | ].

Lemma retry_loop_request_count fuel max_retries attempt curr_model trace :
  (length (requested (retry_loop backend fuel max_retries attempt curr_model trace).2)
   ≤ length (requested trace) + Z.to_nat (max_retries + 1 - attempt))%nat.
Proof.
  revert attempt curr_model trace.
  induction fuel as [|fuel IH]; intros attempt curr_model trace; [simpl; lia|].
  loop_cases attempt max_retries curr_model; cbn [snd];
    try (etrans; [apply IH|]);
    rewrite ?requested_snoc_sleep, ?requested_snoc_request, ?length_app;
    simpl; lia.
Qed.

Lemma retry_loop_pro_requests fuel max_retries attempt curr_model trace :
  (length (pro_requests
             (retry_loop backend fuel max_retries attempt curr_model trace).2)
   ≤ length (pro_requests trace) + (if is_pro curr_model then 1 else 0))%nat.
Proof.
  revert attempt curr_model trace.
  induction fuel as [|fuel IH]; intros attempt curr_model trace; [simpl; lia|].
  loop_cases attempt max_retries curr_model; cbn [snd];
    try (etrans; [apply IH|]);
    rewrite ?pro_requests_snoc_sleep, ?pro_requests_snoc_request, ?length_app,
      ?is_pro_flash;
    repeat match goal with
    | |- context [is_pro curr_model] => destruct (is_pro curr_model) eqn:?
    end; rewrite ?is_pro_flash; simpl; try lia; try congruence.
Qed.

Lemma retry_loop_sleeps fuel max_retries attempt curr_model trace :
  Forall (λ d, 0 ≤ d ≤ 60) (sleeps trace) →
  Forall (λ d, 0 ≤ d ≤ 60)
    (sleeps (retry_loop backend fuel max_retries attempt curr_model trace).2).
Proof.
  revert attempt curr_model trace.
  induction fuel as [|fuel IH]; intros attempt curr_model trace Htrace; [done|].
  loop_cases attempt max_retries curr_model; cbn [snd];
    try apply IH;
    rewrite ?sleeps_snoc_sleep, ?sleeps_snoc_request; try done.
  apply Forall_app. split; [done|]. repeat constructor; lia.
Qed.

Lemma retry_loop_lower_tier fuel max_retries attempt curr_model trace :
  is_pro curr_model = false →
  Forall (λ m, m = curr_model) (requested trace) →
  Forall (λ m, m = curr_model)
    (requested (retry_loop backend fuel max_retries attempt curr_model trace).2).
Proof.
  intros Hlow. revert attempt trace.
  induction fuel as [|fuel IH]; intros attempt trace Htrace; [done|].
  loop_cases attempt max_retries curr_model; cbn [snd]; try congruence;
    rewrite ?Hlow; try apply IH;
    rewrite ?requested_snoc_sleep, ?requested_snoc_request; try done;
    apply Forall_app; split; done || by repeat constructor.
Qed.

(** How a call that returns, or that passes an error on, ended. *)
Lemma retry_loop_last fuel max_retries attempt curr_model trace :
  0 ≤ attempt →
  match (retry_loop backend fuel max_retries attempt curr_model trace).1 with
  | Return text =>
      ∃ n m, (n ≤ Z.to_nat max_retries)%nat ∧ backend n m = Text text
             ∧ last (requested
                       (retry_loop backend fuel max_retries attempt curr_model trace).2)
               = Some m
  | Raise BackendError | Raise EmptyResponse =>
      ∃ m, last (requested
                   (retry_loop backend fuel max_retries attempt curr_model trace).2)
           = Some m
           ∧ is_pro m = false
  | _ => True
  end.
Proof.
  revert attempt curr_model trace.
  induction fuel as [|fuel IH]; intros attempt curr_model trace Hatt; [done|].
  loop_cases attempt max_retries curr_model; cbn [fst snd];
    try (apply IH; lia); try done.
  - exists (Z.to_nat attempt), curr_model.
    split; [lia|]. split; [done|]. by rewrite requested_snoc_request, last_snoc.
  - exists curr_model. by rewrite requested_snoc_request, last_snoc.
  - exists curr_model. by rewrite requested_snoc_request, last_snoc.
Qed.

Lemma retry_loop_exhausted fuel max_retries attempt curr_model trace :
  (retry_loop backend fuel max_retries attempt curr_model trace).1
  = Raise RetriesExhausted →
  length (requested (retry_loop backend fuel max_retries attempt curr_model trace).2)
  = (length (requested trace) + Z.to_nat (max_retries + 1 - attempt))%nat.
Proof.
  revert attempt curr_model trace.
  induction fuel as [|fuel IH]; intros attempt curr_model trace; [done|].
  loop_cases attempt max_retries curr_model; cbn [fst snd]; try done;
    try (intros Hres%IH; rewrite Hres,
           ?requested_snoc_sleep, ?requested_snoc_request, ?length_app;
         simpl; lia).
  intros _. lia.
Qed.

(** X14: one call makes at most [max_retries + 1] requests, and none when
    [max_retries] is negative. *)
Theorem call_request_bound (model_name : string) (max_retries : Z) :
  (length (requested (call_gemini_json_with_retry backend model_name max_retries).2)
   ≤ Z.to_nat (max_retries + 1))%nat.
Proof.
  unfold call_gemini_json_with_retry.
  etrans; [apply retry_loop_request_count|]. simpl. lia.
Qed.

(** X15: one call makes at most one request to a pro model: after any
    failure on it, every later request goes to flash. *)
Theorem call_pro_at_most_once (model_name : string) (max_retries : Z) :
  (length (pro_requests
             (call_gemini_json_with_retry backend model_name max_retries).2)
   ≤ 1)%nat.
Proof.
  unfold call_gemini_json_with_retry.
  etrans; [apply retry_loop_pro_requests|]. simpl.
  destruct (is_pro model_name); lia.
Qed.

(** X16: every sleep of a call lasts between 0 and 60 seconds, whatever
    delay the quota error suggests. *)
Theorem call_sleeps_bounded (model_name : string) (max_retries : Z) :
  Forall (λ d, 0 ≤ d ≤ 60)
    (sleeps (call_gemini_json_with_retry backend model_name max_retries).2).
Proof. unfold call_gemini_json_with_retry. by apply retry_loop_sleeps. Qed.

(** X17: a model name that is not pro is never replaced: every request of
    the call goes to the model the caller named. *)
Theorem call_keeps_lower_tier (model_name : string) (max_retries : Z) :
  is_pro model_name = false →
  Forall (λ m, m = model_name)
    (requested (call_gemini_json_with_retry backend model_name max_retries).2).
Proof.
  intros Hlow. unfold call_gemini_json_with_retry.
  by apply retry_loop_lower_tier.
Qed.

(** X18: the text a call returns is the text the model gave to its last
    request, one of the first [max_retries + 1]. *)
Theorem call_returns_model_text (model_name : string) (max_retries : Z) text :
  (call_gemini_json_with_retry backend model_name max_retries).1 = Return text →
  ∃ n m,
    (n ≤ Z.to_nat max_retries)%nat ∧ backend n m = Text text
    ∧ last (requested (call_gemini_json_with_retry backend model_name max_retries).2)
      = Some m.
Proof.
  intros Hres. unfold call_gemini_json_with_retry in *.
  pose proof (retry_loop_last (S (Z.to_nat (max_retries + 1))) max_retries 0
                model_name [] (Z.le_refl 0)) as Hlast.
  by rewrite Hres in Hlast.
Qed.

(** X19: an error of the model, or an empty response, is passed on to the
    caller only from a model that is not pro: on a pro model the call
    falls back to flash instead. *)
Theorem call_raises_from_lower_tier (model_name : string) (max_retries : Z) :
  (call_gemini_json_with_retry backend model_name max_retries).1 = Raise BackendError
    ∨ (call_gemini_json_with_retry backend model_name max_retries).1
      = Raise EmptyResponse →
  ∃ m,
    last (requested (call_gemini_json_with_retry backend model_name max_retries).2)
    = Some m
    ∧ is_pro m = false.
Proof.
  intros Hres. unfold call_gemini_json_with_retry in *.
  pose proof (retry_loop_last (S (Z.to_nat (max_retries + 1))) max_retries 0
                model_name [] (Z.le_refl 0)) as Hlast.
  by destruct Hres as [Hres|Hres]; rewrite Hres in Hlast.
Qed.

(** X20: a call gives up for lack of attempts only after it has made all
    its [max_retries + 1] requests. *)
Theorem call_exhausted_after_all_attempts (model_name : string) (max_retries : Z) :
  (call_gemini_json_with_retry backend model_name max_retries).1
  = Raise RetriesExhausted →
  length (requested (call_gemini_json_with_retry backend model_name max_retries).2)
  = Z.to_nat (max_retries + 1).
Proof.
  unfold call_gemini_json_with_retry.
  intros Hres%retry_loop_exhausted. rewrite Hres. simpl. lia.
Qed.
End CallBounds.

Lemma call_keeps_lower_tier_witness :
  Forall (λ m, m = ModelCaller.flash)
    (ModelCaller.requested
       (ModelCaller.call_gemini_json_with_retry always_quota ModelCaller.flash 2).2).
Proof. apply call_keeps_lower_tier. reflexivity. Defined.

Lemma call_returns_model_text_witness :
  ∃ n m,
    (n ≤ Z.to_nat 2)%nat ∧ quota_then_text n m = ModelCaller.Text "{}"
    ∧ last (ModelCaller.requested
              (ModelCaller.call_gemini_json_with_retry quota_then_text
                 "gemini-1.5-pro" 2).2)
      = Some m.
Proof. apply call_returns_model_text. vm_compute. reflexivity. Defined.

Lemma call_raises_from_lower_tier_witness :
  ∃ m,
    last (ModelCaller.requested
            (ModelCaller.call_gemini_json_with_retry always_fails
               "gemini-1.5-pro" 2).2)
    = Some m
    ∧ ModelCaller.is_pro m = false.
Proof. apply call_raises_from_lower_tier. left. vm_compute. reflexivity. Defined.

Lemma call_exhausted_after_all_attempts_witness :
  length (ModelCaller.requested
            (ModelCaller.call_gemini_json_with_retry always_quota
               "gemini-1.5-pro" 2).2)
  = Z.to_nat (2 + 1).
Proof.
  apply call_exhausted_after_all_attempts. vm_compute. reflexivity.
Defined.

(** ** PipelineOrchestrator: how a run ends *)

Section MainFacts.
Import ModelCaller Pipeline.
Variable loads : string → option json.
Variable model : string → nat → string → response.
Variables prompt short_prompt : list event → string.
Variable model_name : string.

Lemma call_return_origin backend name max_retries text trace :
  call_gemini_json_with_retry backend name max_retries = (Return text, trace) →
  ∃ n m, backend n m = Text text.
Proof.
  intros Hcall. unfold call_gemini_json_with_retry in Hcall.
  pose proof (retry_loop_last backend (S (Z.to_nat (max_retries + 1))) max_retries 0
                name [] (Z.le_refl 0)) as Hlast.
  rewrite Hcall in Hlast. destruct Hlast as (n & m & _ & Hn & _). eauto.
Qed.

Lemma call_first_text backend name max_retries text :
  0 ≤ max_retries →
  backend 0%nat name = Text text →
  call_gemini_json_with_retry backend name max_retries
  = (Return text, [Request name]).
Proof.
  intros Hm Hanswer. unfold call_gemini_json_with_retry. cbn [retry_loop].
  destruct (Z.leb_spec 0 max_retries); [|lia].
  change (Z.to_nat 0) with 0%nat. by rewrite Hanswer.
Qed.

Lemma call_requests_3 backend name :
  (length (requested (call_gemini_json_with_retry backend name 2).2) ≤ 3)%nat.
Proof.
  unfold call_gemini_json_with_retry.
  etrans; [apply retry_loop_request_count|]. simpl. lia.
Qed.

Lemma requested_app t1 t2 : requested (t1 ++ t2) = requested t1 ++ requested t2.
Proof. unfold requested. by rewrite omap_app. Qed.

Lemma report_of_inv wrapper r :
  report_of wrapper = Report r →
  ∃ d, wrapper = JObj d ∧ dict_get "json" d = Some r.
Proof.
  destruct wrapper as [| | | | | |d]; try done. simpl.
  destruct (dict_get "json" d) eqn:Hget; [|done]. intros [= ->]. eauto.
Qed.

Lemma report_of_not_failed wrapper raw : report_of wrapper ≠ Failed raw.
Proof.
  destruct wrapper as [| | | | | |d]; try done. simpl.
  by destruct (dict_get "json" d).
Qed.

(** The loop bound of the model is never what ends a run. *)
Lemma main_ends events :
  (main loads model prompt short_prompt model_name events).1 ≠ NoEnding.
Proof.
  unfold main.
  pose proof (call_terminates (model (prompt (shrink_events events 160)))
                model_name 2) as Hone.
  pose proof (call_terminates (model (short_prompt (shrink_events events 160)))
                model_name 2) as Htwo.
  destruct (call_gemini_json_with_retry (model (prompt _)) model_name 2)
    as [[raw|e|] trace]; [|done..].
  assert (∀ w, report_of w ≠ NoEnding) as Hreport.
  { intros [| | | | | |d]; try done. simpl. by destruct (dict_get "json" d). }
  destruct (rejected (try_parse_or_coerce loads raw)) as [[|]|]; [|by simpl..].
  destruct (call_gemini_json_with_retry (model (short_prompt _)) model_name 2)
    as [[raw2|e|] trace2]; [|done..].
  destruct (rejected (try_parse_or_coerce loads raw2)) as [[|]|]; by simpl.
Qed.

(** X21: a report that is written is the value under the key json of an
    object recovered from a text the model gave, to the full prompt or to
    the shortened one, for the sampled events. *)
Theorem main_report_origin (events : list event) (r : json) :
  (main loads model prompt short_prompt model_name events).1 = Report r →
  ∃ p n m raw d,
    p ∈ [prompt (shrink_events events 160);
         short_prompt (shrink_events events 160)]
    ∧ model p n m = Text raw
    ∧ try_parse_or_coerce loads raw = JObj d
    ∧ dict_get "json" d = Some r.
Proof.
  unfold main.
  destruct (call_gemini_json_with_retry (model (prompt _)) model_name 2)
    as [[raw|e|] trace] eqn:Hone; [|done..].
  apply call_return_origin in Hone as (n & m & Hn).
  destruct (rejected (try_parse_or_coerce loads raw)) as [[|]|]; [| |done].
  - destruct (call_gemini_json_with_retry (model (short_prompt _)) model_name 2)
      as [[raw2|e|] trace2] eqn:Htwo; [|done..].
    apply call_return_origin in Htwo as (n2 & m2 & Hn2).
    destruct (rejected (try_parse_or_coerce loads raw2)) as [[|]|]; [done| |done].
    intros (d & Hd & Hr)%report_of_inv.
    exists (short_prompt (shrink_events events 160)), n2, m2, raw2, d.
    split; [set_solver|done].
  - intros (d & Hd & Hr)%report_of_inv.
    exists (prompt (shrink_events events 160)), n, m, raw, d.
    split; [set_solver|done].
Qed.

(** X22: the text saved when a run fails is the model's answer to the
    shortened prompt, and what is recovered from it is empty or lacks
    json. *)
Theorem main_failed_origin (events : list event) (raw2 : string) :
  (main loads model prompt short_prompt model_name events).1 = Failed raw2 →
  rejected (try_parse_or_coerce loads raw2) = Some true
  ∧ ∃ n m, model (short_prompt (shrink_events events 160)) n m = Text raw2.
Proof.
  unfold main.
  destruct (call_gemini_json_with_retry (model (prompt _)) model_name 2)
    as [[raw|e|] trace]; [|done..].
  destruct (rejected (try_parse_or_coerce loads raw)) as [[|]|]; [| |done].
  - destruct (call_gemini_json_with_retry (model (short_prompt _)) model_name 2)
      as [[text|e|] trace2] eqn:Htwo; [|done..].
    apply call_return_origin in Htwo as (n2 & m2 & Hn2).
    destruct (rejected (try_parse_or_coerce loads text)) as [[|]|] eqn:Hrej;
      simpl; [|by intros ?%report_of_not_failed|done].
    intros [= <-]. eauto.
  - by intros ?%report_of_not_failed.
Qed.

(** X23: a run makes at most six requests to the model. *)
Theorem main_request_bound (events : list event) :
  (length (requested (main loads model prompt short_prompt model_name events).2)
   ≤ 6)%nat.
Proof.
  unfold main.
  pose proof (call_requests_3 (model (prompt (shrink_events events 160)))
                model_name) as Hone.
  pose proof (call_requests_3 (model (short_prompt (shrink_events events 160)))
                model_name) as Htwo.
  destruct (call_gemini_json_with_retry (model (prompt _)) model_name 2)
    as [[raw|e|] trace]; simpl in *; [|lia..].
  destruct (rejected (try_parse_or_coerce loads raw)) as [[|]|]; simpl; [|lia..].
  destruct (call_gemini_json_with_retry (model (short_prompt _)) model_name 2)
    as [[raw2|e|] trace2]; simpl in *;
    [destruct (rejected (try_parse_or_coerce loads raw2)) as [[|]|]; simpl|..];
    rewrite requested_app, length_app; lia.
Qed.

(** X24: when the first answer decodes to a value that is not an object
    and is not rejected (a number whose Python value is not zero, true, a
    list with the item json, a string that contains json), the run ends in
    a TypeError after that one request, without a second attempt. *)
Theorem main_type_error (events : list event) (raw : string) (v : json) :
  model (prompt (shrink_events events 160)) 0%nat model_name = Text raw →
  loads raw = Some v →
  (∀ d, v ≠ JObj d) →
  rejected v ≠ Some true →
  main loads model prompt short_prompt model_name events
  = (TypeError, [Request model_name]).
Proof.
  intros Hanswer Hloads Hobj Hrej. unfold main.
  rewrite (call_first_text _ _ 2 raw) by done.
  assert (try_parse_or_coerce loads raw = v) as ->.
  { unfold try_parse_or_coerce. rewrite Hloads.
    destruct v as [| | | | | |d]; try done. by destruct (Hobj d). }
  destruct (rejected v) as [[|]|]; [done| |done].
  destruct v as [| | | | | |d]; try done. by destruct (Hobj d).
Qed.

(** X25: when the first answer decodes to an object with the key json, the
    value under that key is the report, whatever it is, after that one
    request: its fields are not checked. *)
Theorem main_report_unchecked (events : list event) (raw : string)
    (d : list (string * json)) (v : json) :
  model (prompt (shrink_events events 160)) 0%nat model_name = Text raw →
  loads raw = Some (JObj d) →
  dict_get "json" d = Some v →
  main loads model prompt short_prompt model_name events
  = (Report v, [Request model_name]).
Proof.
  intros Hanswer Hloads Hget. unfold main.
  rewrite (call_first_text _ _ 2 raw) by done.
  assert (try_parse_or_coerce loads raw = JObj d) as ->.
  { unfold try_parse_or_coerce, wrap_if_needed, dict_has.
    by rewrite Hloads, Hget. }
  assert (py_truthy (JObj d) = true) as Htruthy by by destruct d.
  unfold rejected, contains_json, dict_has, report_of.
  by rewrite Htruthy, Hget.
Qed.
End MainFacts.

Lemma main_report_origin_witness :
  ∃ p n m raw d,
    p ∈ [fixed_prompt "full" (shrink_events five_kills 160);
         fixed_prompt "short" (shrink_events five_kills 160)]
    ∧ answers full_wrapper p n m = ModelCaller.Text raw
    ∧ try_parse_or_coerce json_loads raw = JObj d
    ∧ dict_get "json" d = Some (JObj [("story", JInt 1); ("coaching", JInt 2);
                                      ("highlights", JInt 3); ("metrics", JInt 4)]).
Proof.
  apply (main_report_origin json_loads (answers full_wrapper)
           (fixed_prompt "full") (fixed_prompt "short") ModelCaller.flash).
  vm_compute. reflexivity.
Defined.

Lemma main_failed_origin_witness :
  Pipeline.rejected (try_parse_or_coerce json_loads "[]") = Some true
  ∧ ∃ n m,
      answers "[]" (fixed_prompt "short" (shrink_events five_kills 160)) n m
      = ModelCaller.Text "[]".
Proof.
  apply (main_failed_origin json_loads (answers "[]")
           (fixed_prompt "full") (fixed_prompt "short") ModelCaller.flash).
  vm_compute. reflexivity.
Defined.

Lemma main_type_error_witness :
  Pipeline.main json_loads (answers "7") (fixed_prompt "full")
    (fixed_prompt "short") ModelCaller.flash five_kills
  = (Pipeline.TypeError, [ModelCaller.Request ModelCaller.flash]).
Proof.
  apply (main_type_error json_loads (answers "7") (fixed_prompt "full")
           (fixed_prompt "short") ModelCaller.flash five_kills "7" (JInt 7)).
  - reflexivity.
  - vm_compute. reflexivity.
  - done.
  - vm_compute. done.
Defined.

Lemma main_report_unchecked_witness :
  Pipeline.main json_loads (answers json_number) (fixed_prompt "full")
    (fixed_prompt "short") ModelCaller.flash five_kills
  = (Pipeline.Report (JInt 1), [ModelCaller.Request ModelCaller.flash]).
Proof.
  apply (main_report_unchecked json_loads (answers json_number)
           (fixed_prompt "full") (fixed_prompt "short") ModelCaller.flash
           five_kills json_number [("json", JInt 1)] (JInt 1)).
  - reflexivity.
  - vm_compute. reflexivity.
  - reflexivity.
Defined.

(** A float is judged by its value, not by its digits: a lexeme that
    underflows to zero is false, so such an answer is rejected and the run
    retries with the shortened prompt instead of ending in a TypeError. *)
Example py_truthy_float :
  py_truthy (JFloat "1e-400") = false
  ∧ py_truthy (JFloat "-0.0") = false
  ∧ py_truthy (JFloat "2.5e-324") = true
  ∧ py_truthy (JFloat "NaN") = true.
Proof. repeat split; vm_compute; reflexivity. Qed.

Example main_underflow_retries :
  Pipeline.main json_loads (answers "1e-400") (fixed_prompt "full")
    (fixed_prompt "short") ModelCaller.flash five_kills
  = (Pipeline.Failed "1e-400",
     [ModelCaller.Request ModelCaller.flash; ModelCaller.Request ModelCaller.flash]).
Proof. vm_compute. reflexivity. Qed.

Example main_float_type_error :
  Pipeline.main json_loads (answers "2.5") (fixed_prompt "full")
    (fixed_prompt "short") ModelCaller.flash five_kills
  = (Pipeline.TypeError, [ModelCaller.Request ModelCaller.flash]).
Proof. vm_compute. reflexivity. Qed.
